(** * A shallow embedding of [config_parser.py]

    The program reads a small line-oriented configuration language and
    builds a tree of values.  This file embeds the class [ConfigParser]
    ([parse], [parse_block], [parse_constant_declaration], [parse_entry],
    [parse_value], [parse_string], [parse_number], [parse_dict],
    [parse_constant]) together with the pieces of the Python runtime the
    class relies on ([str.strip], [str.split], slices, the regular
    expressions), and proves properties of it.

    Conventions of the embedding.
    - A Python [str] is a [string]; a character is a Unicode code point
      below 256 (the Latin-1 range), so [str.isspace] and the regex
      classes [\s] and [\d] are the restrictions of Python's to that range.
    - [self] is a record [ConfigParser] threaded through every method;
      a method returns an [outcome]: a result with the new [self], the
      [ParseError] it raised, or an exception of the interpreter that no
      method catches.
    - [float(value)] is the binary64 number nearest to the decimal the
      token denotes (ties to even), infinite on overflow.  [int(value)]
      is an unbounded [Z], and raises [ValueError] on a token of more
      than 4300 digits, the interpreter's default limit.
    - The methods are given twice: first as the interpreter runs them
      with a call stack that never overflows, and then, in [Limited],
      with the number of frames left as an argument, so that a call
      made with no frame left raises [RecursionError]. *)

From Stdlib Require Import ZArith Ascii String List Lia.
From Stdlib Require Import Floats.SpecFloat.
From Stdlib Require Import DecimalString DecimalNat.
From stdpp Require Import gmap strings list.

Local Open Scope string_scope.
Local Open Scope nat_scope.

(** String concatenation unfolds on a constructor, as list concatenation
    does. *)
#[local] Arguments String.append !_ _ / : simpl nomatch.

(** ** Python strings *)

Module Py.

Definition NL : ascii := ascii_of_nat 10.

(** [str.isspace] on one character, for code points below 256:
    TAB, LF, VT, FF, CR, FS, GS, RS, US, SPACE, NEL and NBSP. *)
Definition isspace (c : ascii) : bool :=
  match nat_of_ascii c with
  | 9 | 10 | 11 | 12 | 13 | 28 | 29 | 30 | 31 | 32 | 133 | 160 => true
  | _ => false
  end.

(** [c.isdecimal()], the regex class [\d]: below 256 only [0-9]. *)
Definition isdigit (c : ascii) : bool :=
  (48 <=? nat_of_ascii c) && (nat_of_ascii c <=? 57).

Definition isupper (c : ascii) : bool :=
  (65 <=? nat_of_ascii c) && (nat_of_ascii c <=? 90).

Definition islower (c : ascii) : bool :=
  (97 <=? nat_of_ascii c) && (nat_of_ascii c <=? 122).

Fixpoint lstrip (s : string) : string :=
  match s with
  | String c s' => if isspace c then lstrip s' else s
  | EmptyString => EmptyString
  end.

Fixpoint rstrip (s : string) : string :=
  match s with
  | String c s' =>
      match rstrip s' with
      | EmptyString => if isspace c then EmptyString else String c EmptyString
      | r => String c r
      end
  | EmptyString => EmptyString
  end.

(** [s.strip()] *)
Definition strip (s : string) : string := rstrip (lstrip s).

(** [s.startswith(p)] *)
Fixpoint startswith (p s : string) : bool :=
  match p, s with
  | EmptyString, _ => true
  | String a p', String b s' => Ascii.eqb a b && startswith p' s'
  | String _ _, EmptyString => false
  end.

Fixpoint drop (n : nat) (s : string) : string :=
  match n, s with
  | S n', String _ s' => drop n' s'
  | _, _ => s
  end.

Fixpoint take (n : nat) (s : string) : string :=
  match n, s with
  | S n', String c s' => String c (take n' s')
  | _, _ => EmptyString
  end.

(** [s.endswith(p)] *)
Definition endswith (p s : string) : bool :=
  (String.length p <=? String.length s) &&
  String.eqb (drop (String.length s - String.length p) s) p.

(** [s[a:-b]] for literal [a] and [b > 0]: the slice from index [a] to
    index [len(s) - b], empty when the bounds cross. *)
Definition slice (a b : nat) (s : string) : string :=
  take (String.length s - b - a) (drop a s).

(** [c in s] for a single character [c]. *)
Fixpoint contains (c : ascii) (s : string) : bool :=
  match s with
  | String c' s' => Ascii.eqb c c' || contains c s'
  | EmptyString => false
  end.

(** [s.split('\n')] *)
Fixpoint split_lines (s : string) : list string :=
  match s with
  | EmptyString => [EmptyString]
  | String c s' =>
      if Ascii.eqb c NL then EmptyString :: split_lines s'
      else match split_lines s' with
           | l :: ls => String c l :: ls
           | [] => [String c EmptyString]
           end
  end.

(** ['\n'.join(ls)], used to write the tests' multi-line texts. *)
Fixpoint join_lines (ls : list string) : string :=
  match ls with
  | [] => EmptyString
  | [l] => l
  | l :: ls' => l ++ String NL (join_lines ls')
  end.

(** [not s] *)
Definition is_empty (s : string) : bool :=
  match s with
  | EmptyString => true
  | String _ _ => false
  end.

Definition digit_value (c : ascii) : Z := Z.of_nat (nat_of_ascii c - 48).

(** The decimal digits of [s] read as a number, most significant first;
    characters that are not digits are passed over. *)
Fixpoint digits_value (acc : Z) (s : string) : Z :=
  match s with
  | EmptyString => acc
  | String c s' =>
      digits_value (if isdigit c then 10 * acc + digit_value c else acc)%Z s'
  end.

Fixpoint count_digits (s : string) : nat :=
  match s with
  | EmptyString => 0
  | String c s' => (if isdigit c then 1 else 0) + count_digits s'
  end.

(** The part of [s] after its first ["."], empty when there is none. *)
Fixpoint after_dot (s : string) : string :=
  match s with
  | EmptyString => EmptyString
  | String c s' => if Ascii.eqb c "." then s' else after_dot s'
  end.

Definition negative (s : string) : bool := startswith "-" s.

(** [sys.get_int_max_str_digits()], at its default. *)
Definition int_max_str_digits : nat := 4300.

(** [int(s)] on the strings it is called with: an optional ["-"] and
    decimal digits.  [None] is the [ValueError] that [int] raises when
    the text has more digits than the limit; the sign is not counted,
    leading zeros are. *)
Definition int (s : string) : option Z :=
  if int_max_str_digits <? count_digits s then None
  else Some (if negative s then (- digits_value 0 s)%Z else digits_value 0 s).

(** A binary64 number: 53 bits of precision, exponents below 1024. *)
Definition binary64 : Type := spec_float.

(** [float(s)] on the strings it is called with: an optional ["-"],
    digits, ["."], digits.  The digits, read as an integer, are divided
    by the power of ten that the digits after the period call for; the
    quotient is rounded once, to the nearest binary64 number.  A text
    whose digits are all zero gives the zero of its sign. *)
Definition float (s : string) : binary64 :=
  let mantissa :=
    match digits_value 0 s with
    | Zpos m => S754_finite (negative s) m 0
    | _ => S754_zero (negative s)
    end in
  let scale := Nat.iter (count_digits (after_dot s)) (Pos.mul 10) 1%positive in
  SFdiv 53 1024 mantissa (S754_finite false scale 0).

End Py.

(** ** The fragment of Python's [re] that the patterns use

    A backtracking matcher in continuation-passing style: alternatives
    are tried in Python's priority order (greedy repetition first) and
    the first complete match decides the captured groups. *)

Module Re.

Inductive regex : Type :=
| Eps
| Chr (c : ascii)              (* a literal character *)
| Cls (p : ascii -> bool)      (* a one-character class: [..], \s, \d, . *)
| Star (p : ascii -> bool)     (* greedy [p*] over a class *)
| Opt (r : regex)              (* greedy [r?] *)
| Cat (r1 r2 : regex)
| Grp (r : regex)              (* a capturing group *)
| Eos.                         (* [$] without MULTILINE *)

Definition Plus (p : ascii -> bool) : regex := Cat (Cls p) (Star p).

Fixpoint lit (s : string) : regex :=
  match s with
  | EmptyString => Eps
  | String c s' => Cat (Chr c) (lit s')
  end.

(** The text consumed between the suffix [s] and its later suffix [s']. *)
Definition consumed (s s' : string) : string :=
  Py.take (String.length s - String.length s') s.

Definition captures := list string.

Fixpoint star (p : ascii -> bool) (s : string)
    (k : string -> option captures) : option captures :=
  match s with
  | String c s' =>
      if p c then
        match star p s' k with
        | Some r => Some r
        | None => k s
        end
      else k s
  | EmptyString => k s
  end.

Fixpoint exec (r : regex) (s : string) (caps : captures)
    (k : string -> captures -> option captures) : option captures :=
  match r with
  | Eps => k s caps
  | Chr c =>
      match s with
      | String c' s' => if Ascii.eqb c c' then k s' caps else None
      | EmptyString => None
      end
  | Cls p =>
      match s with
      | String c' s' => if p c' then k s' caps else None
      | EmptyString => None
      end
  | Star p => star p s (fun s' => k s' caps)
  | Opt r1 =>
      match exec r1 s caps k with
      | Some res => Some res
      | None => k s caps
      end
  | Cat r1 r2 => exec r1 s caps (fun s1 caps1 => exec r2 s1 caps1 k)
  | Grp r1 => exec r1 s caps (fun s1 caps1 => k s1 (caps1 ++ [consumed s s1])%list)
  | Eos =>
      match s with
      | EmptyString => k s caps
      | String c EmptyString => if Ascii.eqb c Py.NL then k s caps else None
      | String _ (String _ _) => None
      end
  end.

(** [re.match(pattern, s)]: anchored at the start of [s] (which is all
    that a leading [^] asks for); [Some caps] is a match object with
    groups [caps], [None] is Python's [None]. *)
Definition rmatch (r : regex) (s : string) : option captures :=
  exec r s [] (fun _ caps => Some caps).

(** The character classes of the patterns. *)
Definition dot (c : ascii) : bool := negb (Ascii.eqb c Py.NL).
Definition ident_start (c : ascii) : bool :=
  Py.islower c || Py.isupper c || Ascii.eqb c "_".
Definition ident_char (c : ascii) : bool :=
  Py.islower c || Py.isupper c || Py.isdigit c || Ascii.eqb c "_".

(** The group that captures an identifier, written IDENT below: an
    opening parenthesis, [[a-zA-Z_]], [[a-zA-Z0-9_]] starred, and a
    closing parenthesis. *)
Definition identifier : regex := Grp (Cat (Cls ident_start) (Star ident_char)).

Infix "@@" := Cat (right associativity, at level 60).

(** [^def\s+IDENT\s*=\s*(.+);$] *)
Definition constant_pattern : regex :=
  lit "def" @@ Plus Py.isspace @@ identifier @@ Star Py.isspace @@ Chr "="
    @@ Star Py.isspace @@ Grp (Plus dot) @@ Chr ";" @@ Eos.

(** [^IDENT\s*->\s*(.+)\.$] *)
Definition entry_pattern : regex :=
  identifier @@ Star Py.isspace @@ lit "->" @@ Star Py.isspace
    @@ Grp (Plus dot) @@ Chr "." @@ Eos.

(** [^IDENT\s*->\s*\{$] *)
Definition nested_pattern : regex :=
  identifier @@ Star Py.isspace @@ lit "->" @@ Star Py.isspace
    @@ Chr "{" @@ Eos.

(** [^-?\d+(\.\d+)?$]; the group is never read, so it is not recorded. *)
Definition number_pattern : regex :=
  Opt (Chr "-") @@ Plus Py.isdigit
    @@ Opt (Chr "." @@ Plus Py.isdigit) @@ Eos.

End Re.

(** ** Values, errors and the parser object *)

#[warnings="-register-all"]
Inductive Value : Type :=
| VInt (z : Z)
| VFloat (f : Py.binary64)
| VText (s : string)
| VDict (d : list (string * Value)).

(** A Python [dict] built by the parser: keys in insertion order. *)
Abbreviation dict := (list (string * Value)).

(** [d[key] = v]: a key that is present keeps its place. *)
Fixpoint dict_set (key : string) (v : Value) (d : dict) : dict :=
  match d with
  | [] => [(key, v)]
  | (k, w) :: d' =>
      if String.eqb key k then (k, v) :: d' else (k, w) :: dict_set key v d'
  end.

(** [ParseError(message, line_number)], one constructor per message of
    the source; [line_number] is always [self.current_line + 1]. *)
Inductive ParseError : Type :=
| ExpectedEndOfFile (line_number : nat)
    (* expected end of file after the closing brace *)
| ExpectedOpeningBrace (line_number : nat)
    (* expected an opening brace *)
| ExpectedNestedEnd (line_number : nat)
    (* expected the end of a nested mapping with a period *)
| InvalidConstantDeclaration (line_number : nat)
    (* invalid constant declaration *)
| InvalidEntry (line_number : nat)
    (* invalid mapping entry *)
| InvalidNumberFormat (value : string) (line_number : nat)
    (* invalid number format: value *)
| UndefinedConstant (const_name : string) (line_number : nat).
    (* undefined constant: const_name *)

(** The exceptions of the interpreter that a run of the parser can end
    with; no method has a handler for them. *)
Inductive PyException : Type :=
| ValueError
    (* int(): the text exceeds the limit for integer string conversion *)
| RecursionError.
    (* maximum recursion depth exceeded *)

Inductive outcome (A : Type) : Type :=
| Ok (a : A)
| Raise (e : ParseError)
| Uncaught (x : PyException)
| OutOfFuel.
Arguments Ok {A} a.
Arguments Raise {A} e.
Arguments Uncaught {A} x.
Arguments OutOfFuel {A}.

Definition bind {A B : Type} (m : outcome A) (k : A -> outcome B) : outcome B :=
  match m with
  | Ok a => k a
  | Raise e => Raise e
  | Uncaught x => Uncaught x
  | OutOfFuel => OutOfFuel
  end.

Record ConfigParser : Type := {
  constants : gmap string Value;
  current_line : nat;
  lines : list string
}.

(** [ConfigParser()] *)
Definition ConfigParser_init : ConfigParser :=
  {| constants := ∅; current_line := 0; lines := [] |}.

(** [self.current_line += 1] *)
Definition advance (self : ConfigParser) : ConfigParser :=
  {| constants := constants self;
     current_line := current_line self + 1;
     lines := lines self |}.

(** [self.constants[name] = v] *)
Definition set_constant (name : string) (v : Value) (self : ConfigParser)
    : ConfigParser :=
  {| constants := <[name := v]> (constants self);
     current_line := current_line self;
     lines := lines self |}.

(** [not line or line.startswith("*>")] *)
Definition blank_or_comment (line : string) : bool :=
  Py.is_empty line || Py.startswith "*>" line.

(** ** The methods, open in their recursive call to [parse_block] *)

Module Methods.
Section Methods.

Variable parse_block : ConfigParser -> outcome (dict * ConfigParser).

Definition parse_string (value : string) : string := Py.slice 2 2 value.

Definition parse_number (value : string) (self : ConfigParser)
    : outcome (Value * ConfigParser) :=
  match Re.rmatch Re.number_pattern value with
  | Some _ =>
      if Py.contains "." value then Ok (VFloat (Py.float value), self)
      else
        match Py.int value with
        | Some z => Ok (VInt z, self)
        | None => Uncaught ValueError
        end
  | None => Raise (InvalidNumberFormat value (current_line self + 1))
  end.

Definition parse_dict (value : string) (self : ConfigParser)
    : outcome (Value * ConfigParser) :=
  let dict_content := Py.strip (Py.slice 1 1 value) in
  let nested_parser :=
    {| constants := constants self;
       current_line := 0;
       lines := Py.split_lines dict_content |} in
  bind (parse_block nested_parser) (fun '(config, _) => Ok (VDict config, self)).

Definition parse_constant (value : string) (self : ConfigParser)
    : outcome (Value * ConfigParser) :=
  let const_name := Py.slice 1 1 value in
  match constants self !! const_name with
  | None => Raise (UndefinedConstant const_name (current_line self + 1))
  | Some v => Ok (v, self)
  end.

Definition parse_value (value : string) (self : ConfigParser)
    : outcome (Value * ConfigParser) :=
  if Py.startswith "[[" value && Py.endswith "]]" value then
    Ok (VText (parse_string value), self)
  else if Py.startswith "{" value && Py.endswith "}" value then
    parse_dict value self
  else if Py.startswith "|" value && Py.endswith "|" value then
    parse_constant value self
  else parse_number value self.

Definition parse_constant_declaration (line : string) (self : ConfigParser)
    : outcome ConfigParser :=
  match Re.rmatch Re.constant_pattern line with
  | None => Raise (InvalidConstantDeclaration (current_line self + 1))
  | Some groups =>
      let name := nth 0 groups EmptyString in
      let value := nth 1 groups EmptyString in
      bind (parse_value (Py.strip value) self) (fun '(parsed_value, self1) =>
        Ok (advance (set_constant name parsed_value self1)))
  end.

Definition parse_entry (current_dict : dict) (line : string)
    (self : ConfigParser) : outcome (dict * ConfigParser) :=
  match Re.rmatch Re.entry_pattern line with
  | Some groups =>
      let key := nth 0 groups EmptyString in
      let value := nth 1 groups EmptyString in
      bind (parse_value (Py.strip value) self) (fun '(parsed_value, self1) =>
        Ok (dict_set key parsed_value current_dict, self1))
  | None =>
      match Re.rmatch Re.nested_pattern line with
      | Some groups =>
          let key := nth 0 groups EmptyString in
          bind (parse_block (advance self)) (fun '(nested_config, self1) =>
            Ok (dict_set key (VDict nested_config) current_dict, self1))
      | None => Raise (InvalidEntry (current_line self + 1))
      end
  end.

(** One turn of the [while] loop of [parse_block]; [continue] is the
    rest of the loop. *)
Definition parse_block_step
    (continue : dict -> ConfigParser -> outcome (dict * ConfigParser))
    (config : dict) (self : ConfigParser) : outcome (dict * ConfigParser) :=
  match lines self !! current_line self with
  | None => Ok (config, self)
  | Some raw =>
      let line := Py.strip raw in
      if blank_or_comment line then continue config (advance self)
      else if Py.startswith "def" line then
        bind (parse_constant_declaration line self) (continue config)
      else if Py.startswith "{" line then
        parse_block (advance self)
      else if Py.startswith "}" line then
        if String.eqb line "}." || String.eqb line "}" then
          Ok (config, advance self)
        else Raise (ExpectedNestedEnd (current_line self + 1))
      else
        bind (parse_entry config line self) (fun '(config1, self1) =>
          continue config1 (advance self1))
  end.

End Methods.
End Methods.

(** The loop of [parse_block] with a bound on the number of nested
    calls and loop turns. *)
Fixpoint parse_block_loop (fuel : nat) (config : dict) (self : ConfigParser)
    : outcome (dict * ConfigParser) :=
  match fuel with
  | 0 => OutOfFuel
  | S fuel' =>
      Methods.parse_block_step (parse_block_loop fuel' [])
        (parse_block_loop fuel') config self
  end.

(** The bound that is enough for [self]: twice its length plus two for
    every line from the cursor on, plus one. *)
Definition weight (ls : list string) : nat :=
  fold_right (fun l n => 2 * String.length l + 2 + n) 0 ls.

Definition block_fuel (self : ConfigParser) : nat :=
  S (weight (drop (current_line self) (lines self))).

(** The loop of [parse_block] entered with the mapping [config]. *)
Definition block_loop (config : dict) (self : ConfigParser)
    : outcome (dict * ConfigParser) :=
  parse_block_loop (block_fuel self) config self.

(** ** The class [ConfigParser] *)

Definition parse_block (self : ConfigParser) : outcome (dict * ConfigParser) :=
  block_loop [] self.

Definition parse_string := Methods.parse_string.
Definition parse_number := Methods.parse_number.
Definition parse_dict := Methods.parse_dict parse_block.
Definition parse_constant := Methods.parse_constant.
Definition parse_value := Methods.parse_value parse_block.
Definition parse_constant_declaration :=
  Methods.parse_constant_declaration parse_block.
Definition parse_entry := Methods.parse_entry parse_block.

(** The second [while] loop of [parse]: after the block, only blank
    lines and comments may follow. *)
Fixpoint parse_trailing (fuel : nat) (config : dict) (self : ConfigParser)
    : outcome (dict * ConfigParser) :=
  match fuel with
  | 0 => OutOfFuel
  | S fuel' =>
      match lines self !! current_line self with
      | None => Ok (config, self)
      | Some raw =>
          let line := Py.strip raw in
          if blank_or_comment line then parse_trailing fuel' config (advance self)
          else Raise (ExpectedEndOfFile (current_line self + 1))
      end
  end.

Definition trailing_fuel (self : ConfigParser) : nat :=
  S (length (lines self) - current_line self).

(** The first [while] loop of [parse]. *)
Fixpoint parse_loop (fuel : nat) (self : ConfigParser)
    : outcome (dict * ConfigParser) :=
  match fuel with
  | 0 => OutOfFuel
  | S fuel' =>
      match lines self !! current_line self with
      | None => Ok ([], self)
      | Some raw =>
          let line := Py.strip raw in
          if blank_or_comment line then parse_loop fuel' (advance self)
          else if Py.startswith "def" line then
            bind (parse_constant_declaration line self) (parse_loop fuel')
          else if Py.startswith "{" line then
            bind (parse_block (advance self)) (fun '(config, self1) =>
              parse_trailing (trailing_fuel self1) config self1)
          else Raise (ExpectedOpeningBrace (current_line self + 1))
      end
  end.

(** [self.parse(text)]: the lines and the cursor are reset, the constant
    table is the one [self] already has. *)
Definition parse (text : string) (self : ConfigParser)
    : outcome (dict * ConfigParser) :=
  let self0 :=
    {| constants := constants self;
       current_line := 0;
       lines := Py.split_lines text |} in
  parse_loop (trailing_fuel self0) self0.

(** [ConfigParser().parse(text)], as [main] and the tests call it. *)
Definition parse_text (text : string) : outcome dict :=
  bind (parse text ConfigParser_init) (fun '(config, _) => Ok config).

(** * The methods on a bounded call stack

    The interpreter counts the frames of the functions written in Python
    that are running, and a call made when no frame is left raises
    [RecursionError].  The definitions of this module are those above
    with the count made explicit: every function takes the number
    [depth] of frames that are left when it is called.  A function
    written in Python takes one frame while it runs: each method of the
    class, the [__init__] of [ParseError] and of [ConfigParser], and
    [re.match], which calls [re._compile] and so takes two.  The
    built-in functions and methods ([str.strip], [str.split], [int],
    [float], [dict.copy] and the like) take none. *)

Module Limited.

(** [sys.getrecursionlimit()], at its default. *)
Definition recursion_limit : nat := 1000.

(** A call of a function written in Python, made with [depth] frames
    left; the body runs with one frame less. *)
Definition call {A : Type} (depth : nat) (body : nat -> outcome A) : outcome A :=
  match depth with
  | 0 => Uncaught RecursionError
  | S depth' => body depth'
  end.

(** [re.match(pattern, s)] *)
Definition re_match (depth : nat) (pattern : Re.regex) (s : string)
    : outcome (option Re.captures) :=
  call depth (fun depth1 => call depth1 (fun _ => Ok (Re.rmatch pattern s))).

(** [raise ParseError(message, line_number)] *)
Definition raise {A : Type} (depth : nat) (e : ParseError) : outcome A :=
  call depth (fun _ => Raise e).

(** [ConfigParser()] *)
Definition new_parser (depth : nat) : outcome ConfigParser :=
  call depth (fun _ => Ok ConfigParser_init).

Module Methods.
Section Methods.

Variable parse_block : nat -> ConfigParser -> outcome (dict * ConfigParser).

Definition parse_string (depth : nat) (value : string) : outcome string :=
  call depth (fun _ => Ok (Py.slice 2 2 value)).

Definition parse_number (depth : nat) (value : string) (self : ConfigParser)
    : outcome (Value * ConfigParser) :=
  call depth (fun depth =>
    bind (re_match depth Re.number_pattern value) (fun m =>
      match m with
      | Some _ =>
          if Py.contains "." value then Ok (VFloat (Py.float value), self)
          else
            match Py.int value with
            | Some z => Ok (VInt z, self)
            | None => Uncaught ValueError
            end
      | None => raise depth (InvalidNumberFormat value (current_line self + 1))
      end)).

Definition parse_dict (depth : nat) (value : string) (self : ConfigParser)
    : outcome (Value * ConfigParser) :=
  call depth (fun depth =>
    let dict_content := Py.strip (Py.slice 1 1 value) in
    bind (new_parser depth) (fun _ =>
      let nested_parser :=
        {| constants := constants self;
           current_line := 0;
           lines := Py.split_lines dict_content |} in
      bind (parse_block depth nested_parser) (fun '(config, _) =>
        Ok (VDict config, self)))).

Definition parse_constant (depth : nat) (value : string) (self : ConfigParser)
    : outcome (Value * ConfigParser) :=
  call depth (fun depth =>
    let const_name := Py.slice 1 1 value in
    match constants self !! const_name with
    | None => raise depth (UndefinedConstant const_name (current_line self + 1))
    | Some v => Ok (v, self)
    end).

Definition parse_value (depth : nat) (value : string) (self : ConfigParser)
    : outcome (Value * ConfigParser) :=
  call depth (fun depth =>
    if Py.startswith "[[" value && Py.endswith "]]" value then
      bind (parse_string depth value) (fun text => Ok (VText text, self))
    else if Py.startswith "{" value && Py.endswith "}" value then
      parse_dict depth value self
    else if Py.startswith "|" value && Py.endswith "|" value then
      parse_constant depth value self
    else parse_number depth value self).

Definition parse_constant_declaration (depth : nat) (line : string)
    (self : ConfigParser) : outcome ConfigParser :=
  call depth (fun depth =>
    bind (re_match depth Re.constant_pattern line) (fun m =>
      match m with
      | None => raise depth (InvalidConstantDeclaration (current_line self + 1))
      | Some groups =>
          let name := nth 0 groups EmptyString in
          let value := nth 1 groups EmptyString in
          bind (parse_value depth (Py.strip value) self)
            (fun '(parsed_value, self1) =>
               Ok (advance (set_constant name parsed_value self1)))
      end)).

Definition parse_entry (depth : nat) (current_dict : dict) (line : string)
    (self : ConfigParser) : outcome (dict * ConfigParser) :=
  call depth (fun depth =>
    bind (re_match depth Re.entry_pattern line) (fun m =>
      match m with
      | Some groups =>
          let key := nth 0 groups EmptyString in
          let value := nth 1 groups EmptyString in
          bind (parse_value depth (Py.strip value) self)
            (fun '(parsed_value, self1) =>
               Ok (dict_set key parsed_value current_dict, self1))
      | None =>
          bind (re_match depth Re.nested_pattern line) (fun m_nested =>
            match m_nested with
            | Some groups =>
                let key := nth 0 groups EmptyString in
                bind (parse_block depth (advance self))
                  (fun '(nested_config, self1) =>
                     Ok (dict_set key (VDict nested_config) current_dict, self1))
            | None => raise depth (InvalidEntry (current_line self + 1))
            end)
      end)).

(** One turn of the [while] loop of [parse_block], which runs in the
    frame of [parse_block] with [depth] frames left. *)
Definition parse_block_step (depth : nat)
    (continue : dict -> ConfigParser -> outcome (dict * ConfigParser))
    (config : dict) (self : ConfigParser) : outcome (dict * ConfigParser) :=
  match lines self !! current_line self with
  | None => Ok (config, self)
  | Some raw =>
      let line := Py.strip raw in
      if blank_or_comment line then continue config (advance self)
      else if Py.startswith "def" line then
        bind (parse_constant_declaration depth line self) (continue config)
      else if Py.startswith "{" line then
        parse_block depth (advance self)
      else if Py.startswith "}" line then
        if String.eqb line "}." || String.eqb line "}" then
          Ok (config, advance self)
        else raise depth (ExpectedNestedEnd (current_line self + 1))
      else
        bind (parse_entry depth config line self) (fun '(config1, self1) =>
          continue config1 (advance self1))
  end.

End Methods.
End Methods.

(** The loop of [parse_block], in a frame with [depth] frames left. *)
Fixpoint parse_block_loop (fuel depth : nat) (config : dict)
    (self : ConfigParser) : outcome (dict * ConfigParser) :=
  match fuel with
  | 0 => OutOfFuel
  | S fuel' =>
      Methods.parse_block_step
        (fun depth1 self1 =>
           call depth1 (fun depth2 => parse_block_loop fuel' depth2 [] self1))
        depth (parse_block_loop fuel' depth) config self
  end.

Definition block_loop (depth : nat) (config : dict) (self : ConfigParser)
    : outcome (dict * ConfigParser) :=
  parse_block_loop (block_fuel self) depth config self.

(** [self.parse_block()], called with [depth] frames left. *)
Definition parse_block (depth : nat) (self : ConfigParser)
    : outcome (dict * ConfigParser) :=
  call depth (fun depth => block_loop depth [] self).

Definition parse_string := Methods.parse_string.
Definition parse_number := Methods.parse_number.
Definition parse_dict := Methods.parse_dict parse_block.
Definition parse_constant := Methods.parse_constant.
Definition parse_value := Methods.parse_value parse_block.
Definition parse_constant_declaration :=
  Methods.parse_constant_declaration parse_block.
Definition parse_entry := Methods.parse_entry parse_block.

Fixpoint parse_trailing (fuel depth : nat) (config : dict)
    (self : ConfigParser) : outcome (dict * ConfigParser) :=
  match fuel with
  | 0 => OutOfFuel
  | S fuel' =>
      match lines self !! current_line self with
      | None => Ok (config, self)
      | Some raw =>
          let line := Py.strip raw in
          if blank_or_comment line then
            parse_trailing fuel' depth config (advance self)
          else raise depth (ExpectedEndOfFile (current_line self + 1))
      end
  end.

Fixpoint parse_loop (fuel depth : nat) (self : ConfigParser)
    : outcome (dict * ConfigParser) :=
  match fuel with
  | 0 => OutOfFuel
  | S fuel' =>
      match lines self !! current_line self with
      | None => Ok ([], self)
      | Some raw =>
          let line := Py.strip raw in
          if blank_or_comment line then parse_loop fuel' depth (advance self)
          else if Py.startswith "def" line then
            bind (parse_constant_declaration depth line self)
              (parse_loop fuel' depth)
          else if Py.startswith "{" line then
            bind (parse_block depth (advance self)) (fun '(config, self1) =>
              parse_trailing (trailing_fuel self1) depth config self1)
          else raise depth (ExpectedOpeningBrace (current_line self + 1))
      end
  end.

(** [self.parse(text)], called with [depth] frames left. *)
Definition parse (depth : nat) (text : string) (self : ConfigParser)
    : outcome (dict * ConfigParser) :=
  call depth (fun depth =>
    let self0 :=
      {| constants := constants self;
         current_line := 0;
         lines := Py.split_lines text |} in
    parse_loop (trailing_fuel self0) depth self0).

End Limited.

(** * The vocabulary of the properties *)

(** ** A declarative reading of the patterns *)

Module ReSpec.
Import Re.

(** [matches r w rest caps]: [r] can consume [w] when [rest] follows,
    recording the groups [caps]. *)
Inductive matches : regex -> string -> string -> captures -> Prop :=
| M_Eps rest : matches Eps EmptyString rest []
| M_Chr c rest : matches (Chr c) (String c EmptyString) rest []
| M_Cls p c rest : p c = true -> matches (Cls p) (String c EmptyString) rest []
| M_Star_nil p rest : matches (Star p) EmptyString rest []
| M_Star_cons p c w rest :
    p c = true -> matches (Star p) w rest [] ->
    matches (Star p) (String c w) rest []
| M_Opt_none r rest : matches (Opt r) EmptyString rest []
| M_Opt_some r w rest cs : matches r w rest cs -> matches (Opt r) w rest cs
| M_Cat r1 r2 w1 w2 rest cs1 cs2 :
    matches r1 w1 (w2 ++ rest) cs1 -> matches r2 w2 rest cs2 ->
    matches (Cat r1 r2) (w1 ++ w2) rest (cs1 ++ cs2)%list
| M_Grp r w rest cs : matches r w rest cs -> matches (Grp r) w rest (cs ++ [w])%list
| M_Eos rest :
    rest = EmptyString \/ rest = String Py.NL EmptyString ->
    matches Eos EmptyString rest [].

(** The last character of [s] that is not a trailing line feed. *)
Fixpoint final_char (s : string) : option ascii :=
  match s with
  | EmptyString => None
  | String c s' =>
      match final_char s' with
      | Some d => Some d
      | None => if Ascii.eqb c Py.NL then None else Some c
      end
  end.

(** [ends_in c r]: the pattern [r] finishes with the character [c]
    followed by [$]. *)
Inductive ends_in (c : ascii) : regex -> Prop :=
| ends_base : ends_in c (Cat (Chr c) Eos)
| ends_cat r1 r2 : ends_in c r2 -> ends_in c (Cat r1 r2).

Fixpoint all (p : ascii -> bool) (s : string) : bool :=
  match s with
  | EmptyString => true
  | String c s' => p c && all p s'
  end.

(** One or more decimal digits. *)
Definition digits (s : string) : bool := negb (Py.is_empty s) && all Py.isdigit s.

(** The number syntax in words: an optional leading ["-"], one or more
    digits, and optionally ["."] followed by one or more digits. *)
Definition number_token (v : string) : Prop :=
  exists sign whole frac,
    v = sign ++ whole ++ frac /\
    (sign = EmptyString \/ sign = "-") /\
    digits whole = true /\
    (frac = EmptyString \/ exists f, frac = "." ++ f /\ digits f = true).

End ReSpec.

(** ** Bounded and unbounded runs *)

(** [approx r r']: [r] is [r'], unless the bound was reached. *)
Definition approx {A : Type} (r r' : outcome A) : Prop := r = OutOfFuel \/ r = r'.

(** [refines r r']: [r] is [r'], unless the call stack overflowed. *)
Definition refines {A : Type} (r r' : outcome A) : Prop :=
  r = Uncaught RecursionError \/ r = r'.

(** A number of frames that is enough for [parse] on [text], whatever
    the text holds: four for every character and every line, and
    three. *)
Definition parse_frames (text : string) : nat :=
  2 * weight (Py.split_lines text) + 3.

(** ** What a call leaves behind *)

(** [grows s s']: the same lines, the cursor not moved back, no constant
    removed. *)
Definition grows (s s' : ConfigParser) : Prop :=
  lines s' = lines s /\ current_line s <= current_line s' /\
  forall name, is_Some (constants s !! name) -> is_Some (constants s' !! name).

Definition post (f : ConfigParser -> outcome (dict * ConfigParser)) : Prop :=
  forall s d s', f s = Ok (d, s') -> grows s s'.

(** ** Lines and texts *)

Definition blank_line (raw : string) : bool := blank_or_comment (Py.strip raw).

(** The index of the first line that is neither blank nor a comment. *)
Fixpoint first_content (ls : list string) : option nat :=
  match ls with
  | [] => None
  | l :: ls' => if blank_line l then S <$> first_content ls' else Some 0
  end.

Definition has_opening_line (text : string) : bool :=
  existsb (fun l => Py.startswith "{" (Py.strip l)) (Py.split_lines text).

Definition has_closing_line (text : string) : bool :=
  existsb (fun l => Py.startswith "}" (Py.strip l)) (Py.split_lines text).

(** The name and the stripped value token of a declaration line. *)
Definition declaration_of (line : string) : option (string * string) :=
  match Re.rmatch Re.constant_pattern line with
  | Some groups =>
      Some (nth 0 groups EmptyString, Py.strip (nth 1 groups EmptyString))
  | None => None
  end.

(** ** Tokens, errors and mappings *)

(** [s] has no line feed. *)
Definition no_nl (s : string) : Prop := Py.contains Py.NL s = false.

(** [p in s] for a string [p]. *)
Fixpoint occurs (p s : string) : bool :=
  match s with
  | EmptyString => Py.startswith p EmptyString
  | String _ s' => Py.startswith p s || occurs p s'
  end.

(** The line number an error carries. *)
Definition error_line (e : ParseError) : nat :=
  match e with
  | ExpectedEndOfFile n | ExpectedOpeningBrace n | ExpectedNestedEnd n
  | InvalidConstantDeclaration n | InvalidEntry n
  | InvalidNumberFormat _ n | UndefinedConstant _ n => n
  end.

(** [in_range s e]: the error names a line of the parser [s]. *)
Definition in_range (s : ConfigParser) (e : ParseError) : Prop :=
  1 <= error_line e <= length (lines s).

Definition errors_in_range
    (f : ConfigParser -> outcome (dict * ConfigParser)) : Prop :=
  forall s e, Forall no_nl (lines s) -> f s = Raise e -> in_range s e.

(** A letter or an underscore, then letters, digits and underscores. *)
Definition is_identifier (s : string) : bool :=
  match s with
  | String c s' => Re.ident_start c && ReSpec.all Re.ident_char s'
  | EmptyString => false
  end.

(** [d.get(key)] *)
Fixpoint dict_get (key : string) (d : dict) : option Value :=
  match d with
  | [] => None
  | (k, v) :: d' => if String.eqb key k then Some v else dict_get key d'
  end.

(** [list(d.keys())] *)
Definition dict_keys (d : dict) : list string := map fst d.

(** A value all of whose mappings, at every depth, have pairwise
    distinct keys that are identifiers. *)
Inductive wf_value : Value -> Prop :=
| wf_int z : wf_value (VInt z)
| wf_float q : wf_value (VFloat q)
| wf_text s : wf_value (VText s)
| wf_dict d :
    NoDup (dict_keys d) ->
    Forall (fun kv => is_identifier (fst kv) = true /\ wf_value (snd kv)) d ->
    wf_value (VDict d).

Definition wf_constants (self : ConfigParser) : Prop :=
  forall name v, constants self !! name = Some v -> wf_value v.

Definition keeps_wf (f : ConfigParser -> outcome (dict * ConfigParser)) : Prop :=
  forall s d s', wf_constants s -> f s = Ok (d, s') ->
    wf_value (VDict d) /\ wf_constants s'.

(** [c * n] for a character [c]. *)
Definition repeat_char (c : ascii) (n : nat) : string :=
  Nat.iter n (String c) EmptyString.

(** An opening line followed by [n] lines that each open a nested
    mapping. *)
Definition nested_text (n : nat) : string :=
  Py.join_lines ("{" :: repeat "a -> {" n).

(** The decimal text of an integer, as [str] writes it. *)
Definition int_token (z : Z) : string :=
  (if (z <? 0)%Z then "-" else EmptyString)
    ++ NilEmpty.string_of_uint (Nat.to_uint (Z.abs_nat z)).

(** ** A writer for flat blocks

    The parser has no writer; this one produces the plain form of a
    block whose values are integers and texts, to state that the parser
    reads it back. *)

Inductive scalar : Type :=
| SInt (z : Z)
| SText (s : string).

Definition scalar_token (x : scalar) : string :=
  match x with
  | SInt z => int_token z
  | SText s => "[[" ++ s ++ "]]"
  end.

Definition scalar_value (x : scalar) : Value :=
  match x with
  | SInt z => VInt z
  | SText s => VText s
  end.

Definition entry_line (kx : string * scalar) : string :=
  fst kx ++ " -> " ++ scalar_token (snd kx) ++ ".".

Definition flat_block (kxs : list (string * scalar)) : list string :=
  ("{" :: map entry_line kxs ++ ["}"])%list.

(** A scalar the parser can read: a text has no line feed, and an
    integer is below the 4300-th power of ten in absolute value, so that
    its text is within the limit of [int]. *)
Definition readable (x : scalar) : Prop :=
  match x with
  | SText s => no_nl s
  | SInt z => (Z.abs z < 10 ^ Z.of_nat Py.int_max_str_digits)%Z
  end.

(** An entry the writer can write: the key is an identifier, the line
    does not start with [def], and the value is readable. *)
Definition writable (kx : string * scalar) : Prop :=
  is_identifier (fst kx) = true /\
  Py.startswith "def" (entry_line kx) = false /\
  readable (snd kx).

(** The mapping written, built as the parser builds it. *)
Definition read_back (kxs : list (string * scalar)) (config : dict) : dict :=
  fold_left (fun d kx => dict_set (fst kx) (scalar_value (snd kx)) d) kxs config.

(** The parse of a text given by its lines. *)
Definition run (ls : list string) : outcome dict := parse_text (Py.join_lines ls).

(** * Properties *)

(** ** Strings *)

Section StringFacts.

Lemma length_app (a b : string) :
  String.length (a ++ b) = String.length a + String.length b.
Proof. induction a as [|c a IH]; simpl; [done | by rewrite IH]. Qed.

Lemma app_assoc_s (a b c : string) : (a ++ b) ++ c = a ++ (b ++ c).
Proof. induction a as [|x a IH]; simpl; [done | by rewrite IH]. Qed.

Lemma app_empty_r (a : string) : a ++ EmptyString = a.
Proof. induction a as [|x a IH]; simpl; [done | by rewrite IH]. Qed.

Lemma length_take_le (n : nat) (s : string) :
  String.length (Py.take n s) <= n.
Proof.
  revert s; induction n as [|n IH]; intros [|c s]; simpl; try lia.
  specialize (IH s); lia.
Qed.

Lemma take_app_exact (w rest : string) :
  Py.take (String.length w) (w ++ rest) = w.
Proof.
  induction w as [|c w IH]; simpl.
  - by destruct rest.
  - by rewrite IH.
Qed.

Lemma length_lstrip (s : string) :
  String.length (Py.lstrip s) <= String.length s.
Proof. induction s as [|c s IH]; simpl; [lia|]. destruct (Py.isspace c); simpl; lia. Qed.

Lemma length_rstrip (s : string) :
  String.length (Py.rstrip s) <= String.length s.
Proof.
  induction s as [|c s IH]; simpl; [lia|].
  destruct (Py.rstrip s); [destruct (Py.isspace c)|]; simpl in *; lia.
Qed.

Lemma length_strip (s : string) :
  String.length (Py.strip s) <= String.length s.
Proof.
  unfold Py.strip. pose proof (length_rstrip (Py.lstrip s)).
  pose proof (length_lstrip s). lia.
Qed.

Lemma length_slice (a b : nat) (s : string) :
  String.length (Py.slice a b s) <= String.length s - b - a.
Proof. apply length_take_le. Qed.

(** A stripped string does not end in a white-space character. *)
Lemma rstrip_last (x w : string) (c : ascii) :
  Py.rstrip x = w ++ String c EmptyString -> Py.isspace c = false.
Proof.
  revert w; induction x as [|a x IH]; intros w; simpl.
  - by destruct w.
  - destruct (Py.rstrip x) as [|b r] eqn:E.
    + destruct (Py.isspace a) eqn:Ea; [by destruct w|].
      destruct w as [|a' w]; simpl; [congruence|].
      intros [= _ H]. by destruct w.
    + destruct w as [|a' w]; simpl; [done|].
      intros [= _ H]. by eapply IH.
Qed.

Lemma drop_app_exact (w rest : string) :
  Py.drop (String.length w) (w ++ rest) = rest.
Proof. induction w as [|c w IH]; simpl; [by destruct rest | done]. Qed.

Lemma endswith_app (w p : string) : Py.endswith p (w ++ p) = true.
Proof.
  unfold Py.endswith. rewrite length_app.
  replace (String.length w + String.length p - String.length p)
    with (String.length w) by lia.
  rewrite drop_app_exact, String.eqb_refl, andb_true_r.
  apply Nat.leb_le. lia.
Qed.

(** [(d + inner + d)[1:-1]] is [inner], for one-character delimiters. *)
Lemma slice_delimited (a b : ascii) (inner : string) :
  Py.slice 1 1 (String a (inner ++ String b EmptyString)) = inner.
Proof.
  unfold Py.slice. simpl. rewrite length_app. simpl.
  replace (String.length inner + 1 - 0 - 1) with (String.length inner) by lia.
  apply take_app_exact.
Qed.

Lemma startswith_cons (c : ascii) (s : string) :
  Py.startswith (String c EmptyString) s = true ->
  exists s', s = String c s'.
Proof.
  destruct s as [|b s]; simpl; [done|].
  rewrite andb_true_r. intros ->%Ascii.eqb_eq. eauto.
Qed.

End StringFacts.

(** ** The matcher against a declarative reading of the patterns *)

Module ReFacts.
Import Re ReSpec.

Lemma star_sound p s k res :
  star p s k = Some res ->
  exists w rest, s = w ++ rest /\ matches (Star p) w rest [] /\ k rest = Some res.
Proof.
  induction s as [|c s IH]; simpl.
  - intros H. exists EmptyString, EmptyString. repeat split; [constructor | done].
  - destruct (p c) eqn:Hp.
    + destruct (star p s k) as [r|] eqn:Hs.
      * intros [= <-]. destruct (IH eq_refl) as (w & rest & -> & Hm & Hk).
        exists (String c w), rest. repeat split; [by constructor | done].
      * intros H. exists EmptyString, (String c s). repeat split; [constructor | done].
    + intros H. exists EmptyString, (String c s). repeat split; [constructor | done].
Qed.

Lemma consumed_app w rest : consumed (w ++ rest) rest = w.
Proof.
  unfold consumed. rewrite length_app.
  replace (String.length w + String.length rest - String.length rest)
    with (String.length w) by lia.
  apply take_app_exact.
Qed.

(** Soundness: a successful run splits the input into what the pattern
    consumed and what the continuation received. *)
Lemma exec_sound r : forall s caps k res,
  exec r s caps k = Some res ->
  exists w rest cs,
    s = w ++ rest /\ matches r w rest cs /\ k rest (caps ++ cs)%list = Some res.
Proof.
  induction r as [|c|p|p|r IH|r1 IH1 r2 IH2|r IH|]; intros s caps k res; simpl.
  - intros H. exists EmptyString, s, []. rewrite app_nil_r.
    repeat split; [constructor | done].
  - destruct s as [|c' s]; [done|]. destruct (Ascii.eqb c c') eqn:E; [|done].
    apply Ascii.eqb_eq in E as <-. intros H.
    exists (String c EmptyString), s, []. rewrite app_nil_r.
    repeat split; [constructor | done].
  - destruct s as [|c' s]; [done|]. destruct (p c') eqn:E; [|done]. intros H.
    exists (String c' EmptyString), s, []. rewrite app_nil_r.
    repeat split; [by constructor | done].
  - intros H. apply star_sound in H as (w & rest & -> & Hm & Hk).
    exists w, rest, []. by rewrite app_nil_r.
  - destruct (exec r s caps k) as [res'|] eqn:E.
    + intros [= <-]. apply IH in E as (w & rest & cs & -> & Hm & Hk).
      exists w, rest, cs. repeat split; [by constructor | done].
    + intros H. exists EmptyString, s, []. rewrite app_nil_r.
      repeat split; [constructor | done].
  - intros H. apply IH1 in H as (w1 & rest1 & cs1 & -> & Hm1 & H).
    apply IH2 in H as (w2 & rest & cs2 & -> & Hm2 & H).
    exists (w1 ++ w2), rest, (cs1 ++ cs2)%list.
    split; [by rewrite app_assoc_s|]. split; [by constructor|].
    by rewrite app_assoc.
  - intros H. apply IH in H as (w & rest & cs & -> & Hm & H).
    rewrite consumed_app in H.
    exists w, rest, (cs ++ [w])%list.
    split; [done|]. split; [by constructor|]. by rewrite app_assoc.
  - destruct s as [|c [|c' s]]; [| |done].
    + intros H. exists EmptyString, EmptyString, []. rewrite app_nil_r.
      repeat split; [constructor; by left | done].
    + destruct (Ascii.eqb c Py.NL) eqn:E; [|done].
      apply Ascii.eqb_eq in E as ->. intros H.
      exists EmptyString, (String Py.NL EmptyString), []. rewrite app_nil_r.
      repeat split; [constructor; by right | done].
Qed.

Lemma star_complete_nil p s k : is_Some (k s) -> is_Some (star p s k).
Proof.
  intros H. destruct s as [|c s]; simpl; [done|].
  destruct (p c); [|done]. by destruct (star p s k).
Qed.

(** Completeness: when some way of matching lets the continuation
    succeed, the run succeeds. *)
Lemma exec_complete r w rest cs :
  matches r w rest cs ->
  forall caps k,
    is_Some (k rest (caps ++ cs)%list) -> is_Some (exec r (w ++ rest) caps k).
Proof.
  induction 1 as [rest|c rest|p c rest Hp|p rest|p c w rest Hp _ IH|r rest
                 |r w rest cs _ IH|r1 r2 w1 w2 rest cs1 cs2 _ IH1 _ IH2
                 |r w rest cs _ IH|rest Hrest];
    intros caps k Hk; simpl; rewrite ?app_nil_r in Hk.
  - done.
  - by rewrite Ascii.eqb_refl.
  - by rewrite Hp.
  - by apply star_complete_nil.
  - rewrite Hp. specialize (IH caps k). simpl in IH. rewrite app_nil_r in IH.
    destruct (IH Hk) as [x ->]. done.
  - by destruct (exec r rest caps k).
  - destruct (IH caps k Hk) as [x ->]. done.
  - rewrite app_assoc_s. apply IH1. apply IH2. by rewrite <- app_assoc.
  - apply IH. rewrite consumed_app. by rewrite <- app_assoc.
  - by destruct Hrest as [-> | ->].
Qed.

Lemma rmatch_sound r s caps :
  rmatch r s = Some caps ->
  exists w rest, s = w ++ rest /\ matches r w rest caps.
Proof.
  intros H. apply exec_sound in H as (w & rest & cs & -> & Hm & [= <-]).
  eauto.
Qed.

Lemma rmatch_complete r w rest cs :
  matches r w rest cs -> is_Some (rmatch r (w ++ rest)).
Proof. intros H. by eapply exec_complete. Qed.

(** Every group is a piece of the text that was matched. *)
Lemma matches_groups_length r w rest cs :
  matches r w rest cs ->
  Forall (fun g => String.length g <= String.length w) cs.
Proof.
  induction 1 as [| | | | | | |r1 r2 w1 w2 rest cs1 cs2 _ IH1 _ IH2
                 |r w rest cs _ IH|]; try done.
  - rewrite length_app. apply Forall_app; split;
      (eapply Forall_impl; [eassumption | simpl; intros; lia]).
  - apply Forall_app; split; [done | by constructor].
Qed.

Lemma rmatch_groups_length r s caps i :
  rmatch r s = Some caps ->
  String.length (nth i caps EmptyString) <= String.length s.
Proof.
  intros (w & rest & -> & Hm)%rmatch_sound.
  apply matches_groups_length in Hm. rewrite length_app.
  destruct (nth_in_or_default i caps EmptyString) as [Hin | ->]; [|simpl; lia].
  rewrite List.Forall_forall in Hm. apply Hm in Hin. lia.
Qed.

(** *** How a line that matches a pattern ends *)

Lemma final_char_app_r p t d :
  final_char t = Some d -> final_char (p ++ t) = Some d.
Proof. intros H. induction p as [|c p IH]; simpl; [done | by rewrite IH]. Qed.

Lemma matches_final c r :
  ends_in c r -> c <> Py.NL ->
  forall w rest cs, matches r w rest cs -> final_char (w ++ rest) = Some c.
Proof.
  intros Hr Hc. induction Hr as [|r1 r2 _ IH]; intros w rest cs Hm.
  - inversion Hm as [| | | | | | |? ? w1 w2 ? cs1 cs2 H1 H2| |]; subst.
    inversion H1; subst. inversion H2 as [| | | | | | | | |? Hrest]; subst.
    simpl. apply Ascii.eqb_neq in Hc.
    destruct Hrest as [-> | ->]; simpl; by rewrite Hc.
  - inversion Hm as [| | | | | | |? ? w1 w2 ? cs1 cs2 H1 H2| |]; subst.
    rewrite app_assoc_s. apply final_char_app_r. by eapply IH.
Qed.

Lemma rmatch_final c r s caps :
  ends_in c r -> c <> Py.NL -> rmatch r s = Some caps -> final_char s = Some c.
Proof.
  intros Hr Hc (w & rest & -> & Hm)%rmatch_sound. by eapply matches_final.
Qed.

Lemma constant_pattern_final s caps :
  rmatch constant_pattern s = Some caps -> final_char s = Some ";"%char.
Proof. apply rmatch_final; [repeat constructor | done]. Qed.

Lemma entry_pattern_final s caps :
  rmatch entry_pattern s = Some caps -> final_char s = Some "."%char.
Proof. apply rmatch_final; [repeat constructor | done]. Qed.

Lemma nested_pattern_final s caps :
  rmatch nested_pattern s = Some caps -> final_char s = Some "{"%char.
Proof. apply rmatch_final; [repeat constructor | done]. Qed.

(** A line of the form [key -> {] is not of the form [key -> value.]. *)
Lemma nested_not_entry s caps :
  rmatch nested_pattern s = Some caps -> rmatch entry_pattern s = None.
Proof.
  intros H%nested_pattern_final.
  destruct (rmatch entry_pattern s) as [g|] eqn:E; [|done].
  apply entry_pattern_final in E. congruence.
Qed.

(** A line of either entry form is not a constant declaration. *)
Lemma entry_not_constant s :
  is_Some (rmatch entry_pattern s) \/ is_Some (rmatch nested_pattern s) ->
  rmatch constant_pattern s = None.
Proof.
  intros H. destruct (rmatch constant_pattern s) as [g|] eqn:E; [|done].
  apply constant_pattern_final in E.
  destruct H as [[g' H%entry_pattern_final] | [g' H%nested_pattern_final]];
    congruence.
Qed.

(** *** The number pattern *)

Lemma matches_star_inv p w rest cs :
  matches (Star p) w rest cs -> cs = [] /\ all p w = true.
Proof.
  remember (Star p) as r eqn:Hr. induction 1; try done.
  injection Hr as ->. simpl. rewrite H. by destruct IHmatches.
Qed.

Lemma matches_star_intro p w rest :
  all p w = true -> matches (Star p) w rest [].
Proof.
  induction w as [|c w IH]; simpl; [constructor|].
  intros [Hc Hw]%andb_true_iff. constructor; auto.
Qed.

Lemma matches_plus_inv p w rest cs :
  matches (Plus p) w rest cs ->
  cs = [] /\ negb (Py.is_empty w) && all p w = true.
Proof.
  inversion 1 as [| | | | | | |? ? w1 w2 ? cs1 cs2 H1 H2| |]; subst.
  inversion H1; subst. apply matches_star_inv in H2 as [-> H2]. simpl.
  split; [done|]. by apply andb_true_iff.
Qed.

Lemma M_Cat_nil r1 r2 w1 w2 rest :
  matches r1 w1 (w2 ++ rest) [] -> matches r2 w2 rest [] ->
  matches (Cat r1 r2) (w1 ++ w2) rest [].
Proof. intros H1 H2. apply (M_Cat _ _ _ _ _ [] [] H1 H2). Qed.

Lemma matches_plus_intro p w rest :
  negb (Py.is_empty w) && all p w = true -> matches (Plus p) w rest [].
Proof.
  destruct w as [|c w]; simpl; [done|]. intros [Hc Hw]%andb_true_iff.
  apply (M_Cat_nil _ _ (String c EmptyString) w);
    [by constructor | by apply matches_star_intro].
Qed.

Lemma stripped_no_final_newline v w :
  Py.strip v = v -> v <> w ++ String Py.NL EmptyString.
Proof.
  unfold Py.strip. intros Hs ->. by apply rstrip_last in Hs.
Qed.

(** On a stripped token the pattern accepts exactly the number syntax. *)
Lemma number_pattern_spec v :
  Py.strip v = v -> is_Some (rmatch number_pattern v) <-> number_token v.
Proof.
  intros Hv. split.
  - intros [caps (w & rest & E & Hm)%rmatch_sound].
    unfold number_pattern in Hm.
    inversion Hm as [| | | | | | |? ? sign w1 ? ? ? Hsign H1| |]; subst.
    inversion H1 as [| | | | | | |? ? whole w2 ? ? ? Hwhole H2| |]; subst.
    inversion H2 as [| | | | | | |? ? frac w3 ? ? ? Hfrac H3| |]; subst.
    inversion H3 as [| | | | | | | | |? Hrest]; subst.
    destruct Hrest as [-> | ->].
    2:{ exfalso. eapply stripped_no_final_newline; [exact Hv|].
        rewrite app_empty_r. reflexivity. }
    apply matches_plus_inv in Hwhole as [_ Hwhole].
    exists sign, whole, frac. rewrite !app_empty_r. split; [done|].
    split; [|split; [done|]].
    + inversion Hsign as [| | | | |? ?|? ? ? ? Hc| | |]; subst; [by left|].
      inversion Hc; subst. by right.
    + inversion Hfrac as [| | | | |? ?|? ? ? ? Hc| | |]; subst; [by left|].
      right.
      inversion Hc as [| | | | | | |? ? d f ? ? ? Hd Hf| |]; subst.
      inversion Hd; subst. apply matches_plus_inv in Hf as [_ Hf].
      exists f. split; [reflexivity | done].
  - intros (sign & whole & frac & -> & Hsign & Hwhole & Hfrac).
    rewrite <- (app_empty_r (sign ++ whole ++ frac)).
    assert (Hm : exists cs, matches number_pattern (sign ++ whole ++ frac)
                              EmptyString cs).
    { eexists. unfold number_pattern.
      rewrite <- (app_empty_r frac).
      apply M_Cat.
      - destruct Hsign as [-> | ->]; [apply M_Opt_none|].
        apply M_Opt_some, M_Chr.
      - apply M_Cat; [by apply matches_plus_intro|].
        apply M_Cat; [|apply M_Eos; by left].
        destruct Hfrac as [-> | (f & -> & Hf)]; [apply M_Opt_none|].
        apply M_Opt_some.
        apply (M_Cat_nil _ _ (String "." EmptyString) f);
          [apply M_Chr | by apply matches_plus_intro]. }
    destruct Hm as [cs Hm]. by eapply rmatch_complete.
Qed.

End ReFacts.

(** ** The bound of [parse_block_loop] is enough *)

Section Approx.

Context {A : Type}.

Lemma approx_refl (r : outcome A) : approx r r.
Proof. by right. Qed.

Lemma approx_defined (r r' : outcome A) :
  approx r r' -> r <> OutOfFuel -> r = r'.
Proof. by intros [? | ?]. Qed.

End Approx.

Lemma bind_approx {A B} (m m' : outcome A) (k k' : A -> outcome B) :
  approx m m' -> (forall a, approx (k a) (k' a)) ->
  approx (bind m k) (bind m' k').
Proof.
  intros [-> | <-] Hk; [by left|].
  destruct m; simpl; [done | by right | by right | by left].
Qed.

Lemma bind_defined {A B} (m : outcome A) (k : A -> outcome B) :
  m <> OutOfFuel -> (forall a, m = Ok a -> k a <> OutOfFuel) ->
  bind m k <> OutOfFuel.
Proof. destruct m; simpl; [eauto | done | done | done]. Qed.

Create HintDb approx.
#[local] Hint Resolve approx_refl bind_approx : approx.

Section Monotone.

Variables pb pb' : ConfigParser -> outcome (dict * ConfigParser).
Hypothesis Hpb : forall s, approx (pb s) (pb' s).

Lemma parse_value_approx v s :
  approx (Methods.parse_value pb v s) (Methods.parse_value pb' v s).
Proof.
  unfold Methods.parse_value, Methods.parse_dict.
  repeat case_match; auto with approx.
Qed.

Lemma parse_constant_declaration_approx line s :
  approx (Methods.parse_constant_declaration pb line s)
         (Methods.parse_constant_declaration pb' line s).
Proof.
  unfold Methods.parse_constant_declaration.
  case_match; auto using parse_value_approx with approx.
Qed.

Lemma parse_entry_approx c line s :
  approx (Methods.parse_entry pb c line s) (Methods.parse_entry pb' c line s).
Proof.
  unfold Methods.parse_entry.
  repeat case_match; auto using parse_value_approx with approx.
Qed.

Lemma parse_block_step_approx loop loop' c s :
  (forall c s, approx (loop c s) (loop' c s)) ->
  approx (Methods.parse_block_step pb loop c s)
         (Methods.parse_block_step pb' loop' c s).
Proof.
  intros Hloop. unfold Methods.parse_block_step.
  repeat case_match; subst;
    auto using parse_constant_declaration_approx, parse_entry_approx with approx.
  apply bind_approx; [apply parse_entry_approx|]. by intros [c1 s1].
Qed.

End Monotone.

Lemma parse_block_loop_S fuel c s :
  approx (parse_block_loop fuel c s) (parse_block_loop (S fuel) c s).
Proof.
  revert c s. induction fuel as [|fuel IH]; intros c s; [by left|].
  cbn [parse_block_loop]. by apply parse_block_step_approx.
Qed.

Lemma parse_block_loop_le fuel fuel' c s :
  fuel <= fuel' ->
  approx (parse_block_loop fuel c s) (parse_block_loop fuel' c s).
Proof.
  induction 1 as [|fuel' _ IH]; [apply approx_refl|].
  destruct IH as [IH | IH]; [by left|]. rewrite IH. apply parse_block_loop_S.
Qed.

(** *** What a call leaves behind *)

Lemma grows_refl s : grows s s.
Proof. by repeat split. Qed.

Lemma grows_trans s1 s2 s3 : grows s1 s2 -> grows s2 s3 -> grows s1 s3.
Proof.
  intros (?&?&?) (?&?&?). repeat split; [congruence | lia | auto].
Qed.

Lemma grows_advance s : grows s (advance s).
Proof. repeat split; simpl; [lia | auto]. Qed.

Lemma grows_set_constant name v s : grows s (set_constant name v s).
Proof.
  repeat split; simpl; [lia|]. intros n Hn.
  rewrite lookup_insert. by case_decide.
Qed.

Create HintDb grows.
#[local] Hint Resolve grows_refl grows_advance grows_set_constant : grows.

Lemma bind_Ok {A B} (m : outcome A) (k : A -> outcome B) b :
  bind m k = Ok b -> exists a, m = Ok a /\ k a = Ok b.
Proof. destruct m; simpl; [eauto | done | done | done]. Qed.

Section Post.

Variable pb : ConfigParser -> outcome (dict * ConfigParser).

(** [parse_value] never assigns to a field of [self]. *)
Lemma parse_value_self v s x s' :
  Methods.parse_value pb v s = Ok (x, s') -> s' = s.
Proof.
  unfold Methods.parse_value, Methods.parse_dict, Methods.parse_constant,
    Methods.parse_number.
  repeat case_match; try congruence.
  intros ([c n] & _ & [= _ <-])%bind_Ok. done.
Qed.

Lemma parse_constant_declaration_inv line s s' :
  Methods.parse_constant_declaration pb line s = Ok s' ->
  exists groups parsed,
    Re.rmatch Re.constant_pattern line = Some groups /\
    Methods.parse_value pb (Py.strip (nth 1 groups EmptyString)) s
      = Ok (parsed, s) /\
    s' = advance (set_constant (nth 0 groups EmptyString) parsed s).
Proof.
  unfold Methods.parse_constant_declaration.
  destruct (Re.rmatch Re.constant_pattern line) as [groups|]; [|done].
  intros ([parsed s1] & Hv & [= <-])%bind_Ok.
  pose proof (parse_value_self _ _ _ _ Hv) as ->. eauto.
Qed.

Lemma parse_constant_declaration_grows line s s' :
  Methods.parse_constant_declaration pb line s = Ok s' -> grows s s'.
Proof.
  intros (groups & parsed & _ & _ & ->)%parse_constant_declaration_inv.
  eapply grows_trans; [apply grows_set_constant | apply grows_advance].
Qed.

Hypothesis Hpb : post pb.

Lemma parse_entry_grows c line s c' s' :
  Methods.parse_entry pb c line s = Ok (c', s') -> grows s s'.
Proof.
  unfold Methods.parse_entry.
  destruct (Re.rmatch Re.entry_pattern line) as [groups|];
    [|destruct (Re.rmatch Re.nested_pattern line) as [groups|]; [|done]].
  - intros ([parsed s1] & Hv & [= _ <-])%bind_Ok.
    apply parse_value_self in Hv as ->. apply grows_refl.
  - intros ([nested s1] & Hb & [= _ <-])%bind_Ok.
    apply Hpb in Hb. eapply grows_trans; [apply grows_advance | exact Hb].
Qed.

Lemma parse_block_step_grows loop c :
  (forall c, post (loop c)) -> post (Methods.parse_block_step pb loop c).
Proof.
  intros Hloop s d s'. unfold Methods.parse_block_step.
  repeat case_match; subst.
  - intros Hk%Hloop. eapply grows_trans; [apply grows_advance | exact Hk].
  - intros (s1 & Hd%parse_constant_declaration_grows & Hk%Hloop)%bind_Ok.
    by eapply grows_trans.
  - intros Hk%Hpb. eapply grows_trans; [apply grows_advance | exact Hk].
  - intros [= <- <-]. apply grows_advance.
  - done.
  - intros ([c1 s1] & He%parse_entry_grows & Hk%Hloop)%bind_Ok.
    eapply grows_trans; [exact He|].
    eapply grows_trans; [apply grows_advance | exact Hk].
  - intros [= <- <-]. apply grows_refl.
Qed.

End Post.

Lemma parse_block_loop_grows fuel : forall c, post (parse_block_loop fuel c).
Proof.
  induction fuel as [|fuel IH]; intros c; [done|].
  cbn [parse_block_loop]. by apply parse_block_step_grows.
Qed.

(** *** The bound is enough *)

Lemma weight_split_lines c :
  weight (Py.split_lines c) <= 2 * String.length c + 2.
Proof.
  induction c as [|a c IH]; simpl; [lia|].
  destruct (Ascii.eqb a Py.NL); simpl; [lia|].
  destruct (Py.split_lines c); simpl in *; lia.
Qed.

Lemma weight_drop_le n ls : weight (drop n ls) <= weight ls.
Proof.
  revert n; induction ls as [|l ls IH]; intros [|n]; simpl; try lia.
  specialize (IH n). lia.
Qed.

Lemma block_fuel_grows s s' :
  lines s' = lines s -> current_line s <= current_line s' ->
  block_fuel s' <= block_fuel s.
Proof.
  intros Hl Hc. unfold block_fuel. rewrite Hl.
  replace (current_line s') with (current_line s + (current_line s' - current_line s)) by lia.
  rewrite <- drop_drop. pose proof (weight_drop_le (current_line s' - current_line s)
    (drop (current_line s) (lines s))). lia.
Qed.

Lemma block_fuel_lookup s raw :
  lines s !! current_line s = Some raw ->
  block_fuel s = block_fuel (advance s) + 2 * String.length raw + 2.
Proof.
  intros H. unfold block_fuel, advance; simpl.
  rewrite (drop_S _ _ _ H), Nat.add_1_r. simpl. lia.
Qed.

Lemma startswith_nonempty c v :
  Py.startswith (String c EmptyString) v = true -> 1 <= String.length v.
Proof. intros [v' ->]%startswith_cons. simpl. lia. Qed.

Section Total.

Variable pb : ConfigParser -> outcome (dict * ConfigParser).
Variable n : nat.
Hypothesis Hpb_total : forall s, block_fuel s <= n -> pb s <> OutOfFuel.

Lemma parse_value_total v s :
  2 * String.length v + 1 <= n -> Methods.parse_value pb v s <> OutOfFuel.
Proof.
  intros Hn. unfold Methods.parse_value, Methods.parse_dict,
    Methods.parse_constant, Methods.parse_number.
  repeat case_match; try done.
  apply bind_defined; [|by intros [c s1]].
  apply Hpb_total. unfold block_fuel; simpl. rewrite drop_0.
  match goal with H : _ && _ = true |- _ =>
    apply andb_true_iff in H as [Hv%startswith_nonempty _] end.
  pose proof (weight_split_lines (Py.strip (Py.slice 1 1 v))).
  pose proof (length_strip (Py.slice 1 1 v)).
  pose proof (length_slice 1 1 v). lia.
Qed.

Lemma parse_constant_declaration_total line s :
  2 * String.length line + 1 <= n ->
  Methods.parse_constant_declaration pb line s <> OutOfFuel.
Proof.
  intros Hn. unfold Methods.parse_constant_declaration.
  destruct (Re.rmatch Re.constant_pattern line) as [groups|] eqn:E; [|done].
  apply bind_defined; [|by intros [x s1]].
  apply parse_value_total.
  pose proof (ReFacts.rmatch_groups_length _ _ _ 1 E).
  pose proof (length_strip (nth 1 groups EmptyString)). lia.
Qed.

Lemma parse_entry_total c line s :
  2 * String.length line + 1 <= n -> block_fuel (advance s) <= n ->
  Methods.parse_entry pb c line s <> OutOfFuel.
Proof.
  intros Hn Hs. unfold Methods.parse_entry.
  destruct (Re.rmatch Re.entry_pattern line) as [groups|] eqn:E.
  - apply bind_defined; [|by intros [x s1]].
    apply parse_value_total.
    pose proof (ReFacts.rmatch_groups_length _ _ _ 1 E).
    pose proof (length_strip (nth 1 groups EmptyString)). lia.
  - destruct (Re.rmatch Re.nested_pattern line) as [groups|]; [|done].
    apply bind_defined; [by apply Hpb_total | by intros [x s1]].
Qed.

Lemma parse_block_step_total loop c s :
  post pb ->
  (forall c' s', block_fuel s' <= n -> loop c' s' <> OutOfFuel) ->
  block_fuel s <= S n ->
  Methods.parse_block_step pb loop c s <> OutOfFuel.
Proof.
  intros Hpost Hloop Hs. unfold Methods.parse_block_step.
  destruct (lines s !! current_line s) as [raw|] eqn:E; [|done].
  pose proof (block_fuel_lookup _ _ E) as Hf.
  pose proof (length_strip raw) as Hraw.
  repeat case_match; try done.
  - apply Hloop. lia.
  - apply bind_defined; [apply parse_constant_declaration_total; lia|].
    intros s1 (groups & x & _ & _ & ->)%parse_constant_declaration_inv.
    apply Hloop. unfold block_fuel in *; simpl in *. lia.
  - apply Hpb_total. lia.
  - apply bind_defined; [apply parse_entry_total; lia|].
    intros [c1 s1] (Hl & Hc & _)%parse_entry_grows; [|done].
    apply Hloop.
    pose proof (block_fuel_grows (advance s) (advance s1)) as Hg.
    simpl in Hg. specialize (Hg Hl). lia.
Qed.

End Total.

Lemma parse_block_loop_total fuel :
  forall c s, block_fuel s <= fuel -> parse_block_loop fuel c s <> OutOfFuel.
Proof.
  induction fuel as [|fuel IH]; intros c s Hs.
  - unfold block_fuel in Hs. lia.
  - cbn [parse_block_loop]. apply parse_block_step_total with (n := fuel); auto.
    apply parse_block_loop_grows.
Qed.

(** More than [block_fuel] changes nothing. *)
Lemma parse_block_loop_stable fuel c s :
  block_fuel s <= fuel -> parse_block_loop fuel c s = block_loop c s.
Proof.
  intros Hs. symmetry. apply approx_defined.
  - by apply parse_block_loop_le.
  - by apply parse_block_loop_total.
Qed.

Lemma parse_block_loop_approx fuel c s :
  approx (parse_block_loop fuel c s) (block_loop c s).
Proof.
  destruct (le_lt_dec fuel (block_fuel s)).
  - by apply parse_block_loop_le.
  - right. apply parse_block_loop_stable. lia.
Qed.

Lemma block_loop_total c s : block_loop c s <> OutOfFuel.
Proof. by apply parse_block_loop_total. Qed.

Lemma block_loop_grows c : post (block_loop c).
Proof. intros s. apply parse_block_loop_grows. Qed.

Lemma parse_block_total s : parse_block s <> OutOfFuel.
Proof. apply block_loop_total. Qed.

Lemma parse_block_grows : post parse_block.
Proof. apply block_loop_grows. Qed.

(** The loop satisfies the equation of the source: one turn, in which
    the nested calls are [parse_block] and the rest is the loop. *)
Lemma block_loop_unfold c s :
  block_loop c s = Methods.parse_block_step parse_block block_loop c s.
Proof.
  rewrite <- (parse_block_loop_stable (S (block_fuel s))) by lia.
  apply approx_defined; [|by apply parse_block_loop_total; lia].
  cbn [parse_block_loop]. apply parse_block_step_approx; intros;
    apply parse_block_loop_approx.
Qed.

Lemma parse_value_defined v s : parse_value v s <> OutOfFuel.
Proof.
  eapply parse_value_total; [|reflexivity]. intros; apply parse_block_total.
Qed.

Lemma parse_constant_declaration_defined line s :
  parse_constant_declaration line s <> OutOfFuel.
Proof.
  eapply parse_constant_declaration_total; [|reflexivity].
  intros; apply parse_block_total.
Qed.

Lemma parse_block_unfold s :
  parse_block s = Methods.parse_block_step parse_block block_loop [] s.
Proof. apply block_loop_unfold. Qed.

(** *** How a line is dispatched *)

Lemma open_line_dispatch line :
  Py.startswith "{" line = true ->
  blank_or_comment line = false /\ Py.startswith "def" line = false.
Proof. by intros [l ->]%startswith_cons. Qed.

Lemma def_line_dispatch line :
  Py.startswith "def" line = true -> blank_or_comment line = false.
Proof.
  destruct line as [|c line]; [done|]. cbn [Py.startswith].
  intros [Hc%Ascii.eqb_eq _]%andb_true_iff. by subst.
Qed.

Lemma block_loop_def config self raw :
  lines self !! current_line self = Some raw ->
  Py.startswith "def" (Py.strip raw) = true ->
  block_loop config self
    = bind (parse_constant_declaration (Py.strip raw) self) (block_loop config).
Proof.
  intros Hraw Hdef. pose proof (def_line_dispatch _ Hdef) as Hb.
  rewrite block_loop_unfold at 1. unfold Methods.parse_block_step.
  rewrite Hraw. cbv zeta. by rewrite Hb, Hdef.
Qed.

(** ** The driver *)

Lemma first_content_None ls :
  first_content ls = None <-> Forall (fun l => blank_line l = true) ls.
Proof.
  induction ls as [|l ls IH]; simpl; [by split|].
  destruct (blank_line l) eqn:E.
  - rewrite fmap_None, IH. split; [by constructor | by inversion 1].
  - split; [done | inversion 1; congruence].
Qed.

Lemma first_content_Exists ls :
  Exists (fun l => blank_line l = false) ls -> is_Some (first_content ls).
Proof.
  intros H. destruct (first_content ls) eqn:E; [done|].
  apply first_content_None in E. apply Exists_exists in H as (l & Hl & Hb).
  rewrite Forall_forall in E. apply E in Hl. congruence.
Qed.

Lemma trailing_fuel_advance s raw fuel :
  lines s !! current_line s = Some raw -> trailing_fuel s <= S fuel ->
  trailing_fuel (advance s) <= fuel.
Proof.
  intros H%lookup_lt_Some. unfold trailing_fuel; simpl. lia.
Qed.

(** The scan after the block: it succeeds on blank lines and comments
    and stops at the first line with content. *)
Lemma parse_trailing_spec fuel : forall config s,
  trailing_fuel s <= fuel ->
  match first_content (drop (current_line s) (lines s)) with
  | None => exists s', parse_trailing fuel config s = Ok (config, s')
  | Some i =>
      parse_trailing fuel config s
        = Raise (ExpectedEndOfFile (current_line s + i + 1))
  end.
Proof.
  induction fuel as [|fuel IH]; intros config s Hs.
  - unfold trailing_fuel in Hs. lia.
  - cbn [parse_trailing].
    destruct (lines s !! current_line s) as [raw|] eqn:E.
    + rewrite (drop_S _ _ _ E). simpl. fold (blank_line raw).
      destruct (blank_line raw) eqn:Hb; [|by rewrite Nat.add_0_r].
      specialize (IH config (advance s) (trailing_fuel_advance _ _ _ E Hs)).
      simpl in IH. rewrite Nat.add_1_r in IH.
      destruct (first_content (drop (S (current_line s)) (lines s))) as [i|];
        simpl; [|done].
      rewrite IH. do 2 f_equal. lia.
    + apply lookup_ge_None in E. rewrite drop_ge by done. simpl. eauto.
Qed.

Lemma parse_trailing_total fuel config s :
  trailing_fuel s <= fuel -> parse_trailing fuel config s <> OutOfFuel.
Proof.
  intros H. pose proof (parse_trailing_spec fuel config s H) as Hspec.
  destruct (first_content _); [congruence|]. by destruct Hspec as [s' ->].
Qed.

Lemma parse_loop_total fuel : forall s,
  trailing_fuel s <= fuel -> parse_loop fuel s <> OutOfFuel.
Proof.
  induction fuel as [|fuel IH]; intros s Hs.
  - unfold trailing_fuel in Hs. lia.
  - cbn [parse_loop].
    destruct (lines s !! current_line s) as [raw|] eqn:E; [|done].
    pose proof (trailing_fuel_advance _ _ _ E Hs) as Ha.
    repeat case_match; try done.
    + by apply IH.
    + apply bind_defined; [apply parse_constant_declaration_defined|].
      intros s1 (groups & x & _ & _ & ->)%parse_constant_declaration_inv.
      by apply IH.
    + apply bind_defined; [apply parse_block_total|].
      intros [config s1] _. by apply parse_trailing_total.
Qed.

Lemma parse_loop_blank fuel : forall s,
  trailing_fuel s <= fuel ->
  Forall (fun l => blank_line l = true) (drop (current_line s) (lines s)) ->
  exists s', parse_loop fuel s = Ok ([], s') /\ constants s' = constants s.
Proof.
  induction fuel as [|fuel IH]; intros s Hs Hb.
  - unfold trailing_fuel in Hs. lia.
  - cbn [parse_loop].
    destruct (lines s !! current_line s) as [raw|] eqn:E; [|by eauto].
    rewrite (drop_S _ _ _ E) in Hb. inversion Hb as [|? ? Hraw Hrest]; subst.
    unfold blank_line in Hraw. rewrite Hraw.
    destruct (IH (advance s)) as (s' & -> & Hc).
    + by eapply trailing_fuel_advance.
    + simpl. by rewrite Nat.add_1_r.
    + eauto.
Qed.

(** ** The bounded call stack gives the same results *)

Section Refines.

Context {A : Type}.

Lemma refines_refl (r : outcome A) : refines r r.
Proof. by right. Qed.

Lemma call_refines depth (body : nat -> outcome A) r :
  (forall d, refines (body d) r) -> refines (Limited.call depth body) r.
Proof. intros H. destruct depth; simpl; [by left | apply H]. Qed.

Lemma raise_refines depth e : refines (Limited.raise depth e) (Raise e : outcome A).
Proof. apply call_refines. intros d. apply refines_refl. Qed.

Lemma re_match_refines depth pattern s
    (k : option Re.captures -> outcome A) r :
  refines (k (Re.rmatch pattern s)) r ->
  refines (bind (Limited.re_match depth pattern s) k) r.
Proof. intros H. destruct depth as [|[|depth]]; simpl; [by left | by left | done]. Qed.

End Refines.

Lemma bind_refines {A B} (m m' : outcome A) (k k' : A -> outcome B) :
  refines m m' -> (forall a, refines (k a) (k' a)) ->
  refines (bind m k) (bind m' k').
Proof.
  intros [-> | <-] Hk; [by left|].
  destruct m; simpl; [done | by right | by right | by right].
Qed.

Section RefinesMethods.

Variable pbl : nat -> ConfigParser -> outcome (dict * ConfigParser).
Variable pb : ConfigParser -> outcome (dict * ConfigParser).
Hypothesis Hpb : forall d s, refines (pbl d s) (pb s).

Lemma parse_number_refines d v s :
  refines (Limited.Methods.parse_number d v s) (Methods.parse_number v s).
Proof.
  apply call_refines. intros d'. apply re_match_refines.
  unfold Methods.parse_number.
  destruct (Re.rmatch Re.number_pattern v); [apply refines_refl | apply raise_refines].
Qed.

Lemma parse_dict_refines d v s :
  refines (Limited.Methods.parse_dict pbl d v s) (Methods.parse_dict pb v s).
Proof.
  apply call_refines. intros d'. unfold Limited.new_parser.
  destruct d' as [|d']; simpl; [by left|].
  unfold Methods.parse_dict. apply bind_refines; [apply Hpb|].
  intros [c s']. apply refines_refl.
Qed.

Lemma parse_constant_refines d v s :
  refines (Limited.Methods.parse_constant d v s) (Methods.parse_constant v s).
Proof.
  apply call_refines. intros d'. unfold Methods.parse_constant. cbv zeta.
  destruct (constants s !! Py.slice 1 1 v); [apply refines_refl | apply raise_refines].
Qed.

Lemma parse_value_refines d v s :
  refines (Limited.Methods.parse_value pbl d v s) (Methods.parse_value pb v s).
Proof.
  apply call_refines. intros d'. unfold Methods.parse_value.
  destruct (Py.startswith "[[" v && Py.endswith "]]" v).
  { unfold Limited.Methods.parse_string, Methods.parse_string.
    destruct d'; simpl; [by left | apply refines_refl]. }
  destruct (Py.startswith "{" v && Py.endswith "}" v);
    [apply parse_dict_refines|].
  destruct (Py.startswith "|" v && Py.endswith "|" v);
    [apply parse_constant_refines | apply parse_number_refines].
Qed.

Lemma parse_constant_declaration_refines d line s :
  refines (Limited.Methods.parse_constant_declaration pbl d line s)
          (Methods.parse_constant_declaration pb line s).
Proof.
  apply call_refines. intros d'. apply re_match_refines.
  unfold Methods.parse_constant_declaration.
  destruct (Re.rmatch Re.constant_pattern line); [|apply raise_refines].
  cbv zeta. apply bind_refines; [apply parse_value_refines|].
  intros [v s']. apply refines_refl.
Qed.

Lemma parse_entry_refines d c line s :
  refines (Limited.Methods.parse_entry pbl d c line s)
          (Methods.parse_entry pb c line s).
Proof.
  apply call_refines. intros d'. apply re_match_refines.
  unfold Methods.parse_entry.
  destruct (Re.rmatch Re.entry_pattern line).
  { cbv zeta. apply bind_refines; [apply parse_value_refines|].
    intros [v s']. apply refines_refl. }
  apply re_match_refines.
  destruct (Re.rmatch Re.nested_pattern line); [|apply raise_refines].
  cbv zeta. apply bind_refines; [apply Hpb|].
  intros [v s']. apply refines_refl.
Qed.

Lemma parse_block_step_refines d loopl loop c s :
  (forall c' s', refines (loopl c' s') (loop c' s')) ->
  refines (Limited.Methods.parse_block_step pbl d loopl c s)
          (Methods.parse_block_step pb loop c s).
Proof.
  intros Hloop.
  unfold Limited.Methods.parse_block_step, Methods.parse_block_step.
  destruct (lines s !! current_line s) as [raw|]; [|apply refines_refl].
  cbv zeta. destruct (blank_or_comment (Py.strip raw)); [apply Hloop|].
  destruct (Py.startswith "def" (Py.strip raw)).
  { apply bind_refines; [apply parse_constant_declaration_refines | apply Hloop]. }
  destruct (Py.startswith "{" (Py.strip raw)); [apply Hpb|].
  destruct (Py.startswith "}" (Py.strip raw)).
  { destruct (_ || _); [apply refines_refl | apply raise_refines]. }
  apply bind_refines; [apply parse_entry_refines|].
  intros [c1 s1]. apply Hloop.
Qed.

End RefinesMethods.

Lemma parse_block_loop_refines fuel :
  forall d c s,
    refines (Limited.parse_block_loop fuel d c s) (parse_block_loop fuel c s).
Proof.
  induction fuel as [|fuel IH]; intros d c s; [by right|].
  cbn [Limited.parse_block_loop parse_block_loop].
  apply parse_block_step_refines.
  - intros d' s'. apply call_refines. intros d2. apply IH.
  - intros c' s'. apply IH.
Qed.

Lemma parse_block_refines d s :
  refines (Limited.parse_block d s) (parse_block s).
Proof. apply call_refines. intros d'. apply parse_block_loop_refines. Qed.

Lemma parse_trailing_refines fuel :
  forall d c s,
    refines (Limited.parse_trailing fuel d c s) (parse_trailing fuel c s).
Proof.
  induction fuel as [|fuel IH]; intros d c s; [by right|].
  cbn [Limited.parse_trailing parse_trailing].
  destruct (lines s !! current_line s) as [raw|]; [|apply refines_refl].
  cbv zeta. destruct (blank_or_comment (Py.strip raw));
    [apply IH | apply raise_refines].
Qed.

Lemma parse_loop_refines fuel :
  forall d s, refines (Limited.parse_loop fuel d s) (parse_loop fuel s).
Proof.
  induction fuel as [|fuel IH]; intros d s; [by right|].
  cbn [Limited.parse_loop parse_loop].
  destruct (lines s !! current_line s) as [raw|]; [|apply refines_refl].
  cbv zeta. destruct (blank_or_comment (Py.strip raw)); [apply IH|].
  destruct (Py.startswith "def" (Py.strip raw)).
  { apply bind_refines; [|apply IH].
    apply parse_constant_declaration_refines, parse_block_refines. }
  destruct (Py.startswith "{" (Py.strip raw)); [|apply raise_refines].
  apply bind_refines; [apply parse_block_refines|].
  intros [c1 s1]. apply parse_trailing_refines.
Qed.

Lemma parse_refines d text s :
  refines (Limited.parse d text s) (parse text s).
Proof. apply call_refines. intros d'. apply parse_loop_refines. Qed.

(** ** Enough frames *)

Lemma bind_ext {A B} (m : outcome A) (k k' : A -> outcome B) :
  (forall a, m = Ok a -> k a = k' a) -> bind m k = bind m k'.
Proof. destruct m; simpl; auto. Qed.

Section Enough.

Variable pbl : nat -> ConfigParser -> outcome (dict * ConfigParser).
Variable pb : ConfigParser -> outcome (dict * ConfigParser).
Hypothesis Hpb : forall d s, 2 * block_fuel s + 1 <= d -> pbl d s = pb s.

Lemma parse_value_enough d v s :
  4 * String.length v + 5 <= d ->
  Limited.Methods.parse_value pbl d v s = Methods.parse_value pb v s.
Proof.
  intros Hd. destruct d as [|[|[|[|d]]]]; try lia.
  unfold Limited.Methods.parse_value, Methods.parse_value.
  cbn [Limited.call].
  destruct (Py.startswith "[[" v && Py.endswith "]]" v); [done|].
  destruct (Py.startswith "{" v && Py.endswith "}" v) eqn:Hb.
  { unfold Limited.Methods.parse_dict, Methods.parse_dict, Limited.new_parser.
    cbn [Limited.call bind]. rewrite Hpb; [done|].
    unfold block_fuel; simpl. rewrite drop_0.
    apply andb_true_iff in Hb as [Hv%startswith_nonempty _].
    pose proof (weight_split_lines (Py.strip (Py.slice 1 1 v))).
    pose proof (length_strip (Py.slice 1 1 v)).
    pose proof (length_slice 1 1 v). lia. }
  destruct (Py.startswith "|" v && Py.endswith "|" v).
  { unfold Limited.Methods.parse_constant, Methods.parse_constant.
    cbn [Limited.call]. by destruct (constants s !! Py.slice 1 1 v). }
  unfold Limited.Methods.parse_number, Methods.parse_number,
    Limited.re_match.
  cbn [Limited.call bind]. by destruct (Re.rmatch Re.number_pattern v).
Qed.

Lemma parse_constant_declaration_enough d line s :
  4 * String.length line + 6 <= d ->
  Limited.Methods.parse_constant_declaration pbl d line s
    = Methods.parse_constant_declaration pb line s.
Proof.
  intros Hd. destruct d as [|[|[|d]]]; try lia.
  unfold Limited.Methods.parse_constant_declaration,
    Methods.parse_constant_declaration, Limited.re_match.
  cbn [Limited.call bind].
  destruct (Re.rmatch Re.constant_pattern line) as [groups|] eqn:E; [|done].
  cbv zeta. rewrite parse_value_enough; [done|].
  pose proof (ReFacts.rmatch_groups_length _ _ _ 1 E).
  pose proof (length_strip (nth 1 groups EmptyString)). lia.
Qed.

Lemma parse_entry_enough d c line s :
  4 * String.length line + 6 <= d -> 2 * block_fuel (advance s) + 2 <= d ->
  Limited.Methods.parse_entry pbl d c line s = Methods.parse_entry pb c line s.
Proof.
  intros Hd Hs. destruct d as [|[|[|d]]]; try lia.
  unfold Limited.Methods.parse_entry, Methods.parse_entry, Limited.re_match.
  cbn [Limited.call bind].
  destruct (Re.rmatch Re.entry_pattern line) as [groups|] eqn:E.
  - cbv zeta. rewrite parse_value_enough; [done|].
    pose proof (ReFacts.rmatch_groups_length _ _ _ 1 E).
    pose proof (length_strip (nth 1 groups EmptyString)). lia.
  - cbn [Limited.call bind].
    destruct (Re.rmatch Re.nested_pattern line) as [groups|]; [|done].
    cbv zeta. rewrite Hpb; [done | lia].
Qed.

Lemma parse_block_step_enough d loopl loop c s :
  post pb ->
  (forall c' s', 2 * block_fuel s' <= d -> loopl c' s' = loop c' s') ->
  2 * block_fuel s <= d ->
  Limited.Methods.parse_block_step pbl d loopl c s
    = Methods.parse_block_step pb loop c s.
Proof.
  intros Hpost Hloop Hs.
  unfold Limited.Methods.parse_block_step, Methods.parse_block_step.
  destruct (lines s !! current_line s) as [raw|] eqn:E; [|done].
  pose proof (block_fuel_lookup _ _ E) as Hf.
  pose proof (length_strip raw) as Hraw.
  assert (1 <= block_fuel (advance s)) as Hone by (unfold block_fuel; lia).
  cbv zeta. destruct (blank_or_comment (Py.strip raw)); [apply Hloop; lia|].
  destruct (Py.startswith "def" (Py.strip raw)).
  { rewrite parse_constant_declaration_enough by lia. apply bind_ext.
    intros s1 (groups & x & _ & _ & ->)%parse_constant_declaration_inv.
    apply Hloop. unfold block_fuel in *; simpl in *. lia. }
  destruct (Py.startswith "{" (Py.strip raw)); [apply Hpb; lia|].
  destruct (Py.startswith "}" (Py.strip raw)).
  { destruct (_ || _); [done|]. destruct d; [lia | done]. }
  rewrite parse_entry_enough by lia. apply bind_ext.
  intros [c1 s1] (Hl & Hc & _)%parse_entry_grows; [|done].
  apply Hloop.
  pose proof (block_fuel_grows (advance s) (advance s1)) as Hg.
  simpl in Hg. specialize (Hg Hl). lia.
Qed.

End Enough.

Lemma parse_block_loop_enough fuel :
  forall d c s, 2 * block_fuel s <= d ->
    Limited.parse_block_loop fuel d c s = parse_block_loop fuel c s.
Proof.
  induction fuel as [|fuel IH]; intros d c s Hs; [done|].
  cbn [Limited.parse_block_loop parse_block_loop].
  apply parse_block_step_enough;
    [|by apply parse_block_loop_grows|by auto|done].
  intros d1 s1 Hd1. destruct d1 as [|d1]; [lia|]. cbn [Limited.call].
  apply IH. lia.
Qed.

Lemma parse_block_enough d s :
  2 * block_fuel s + 1 <= d -> Limited.parse_block d s = parse_block s.
Proof.
  intros Hd. destruct d as [|d]; [lia|].
  apply parse_block_loop_enough. lia.
Qed.

Lemma parse_trailing_enough fuel :
  forall d c s, 1 <= d ->
    Limited.parse_trailing fuel d c s = parse_trailing fuel c s.
Proof.
  induction fuel as [|fuel IH]; intros d c s Hd; [done|].
  cbn [Limited.parse_trailing parse_trailing].
  destruct (lines s !! current_line s) as [raw|]; [|done].
  cbv zeta. destruct (blank_or_comment (Py.strip raw)); [by apply IH|].
  destruct d; [lia | done].
Qed.

Lemma parse_loop_enough fuel :
  forall d s, 2 * block_fuel s <= d ->
    Limited.parse_loop fuel d s = parse_loop fuel s.
Proof.
  induction fuel as [|fuel IH]; intros d s Hs; [done|].
  cbn [Limited.parse_loop parse_loop].
  destruct (lines s !! current_line s) as [raw|] eqn:E; [|done].
  pose proof (block_fuel_lookup _ _ E) as Hf.
  pose proof (length_strip raw) as Hraw.
  assert (1 <= block_fuel (advance s)) as Hone by (unfold block_fuel; lia).
  cbv zeta. destruct (blank_or_comment (Py.strip raw)); [apply IH; lia|].
  destruct (Py.startswith "def" (Py.strip raw)).
  { unfold Limited.parse_constant_declaration.
    rewrite (parse_constant_declaration_enough _ parse_block)
      by (first [apply parse_block_enough | lia]).
    apply bind_ext.
    intros s1 (groups & x & _ & _ & ->)%parse_constant_declaration_inv.
    apply IH. unfold block_fuel in *; simpl in *. lia. }
  destruct (Py.startswith "{" (Py.strip raw)); [|destruct d; [lia | done]].
  rewrite parse_block_enough by lia. apply bind_ext.
  intros [c1 s1] _. apply parse_trailing_enough. lia.
Qed.

Lemma parse_enough d text s :
  parse_frames text <= d -> Limited.parse d text s = parse text s.
Proof.
  unfold parse_frames. intros Hd. destruct d as [|d]; [lia|].
  apply parse_loop_enough. unfold block_fuel; simpl. rewrite drop_0. lia.
Qed.

Lemma parse_total text s : parse text s <> OutOfFuel.
Proof. unfold parse. by apply parse_loop_total. Qed.

(** * The claims *)

(** ** Running out of lines inside a block *)

(** C3, as stated, fails: a text that opens a block and has no closing
    line at all is parsed to a mapping, not rejected. *)
Lemma unterminated_block_is_accepted :
  let text := Py.join_lines ["{"; "    key1 -> 1."] in
  has_opening_line text = true /\ has_closing_line text = false /\
  parse_text text = Ok [("key1", VInt 1)].
Proof. vm_compute. done. Qed.

(** C3, amended: when the block reader finds the lines exhausted before
    a closing line, it returns the mapping accumulated so far and leaves
    the parser as it is; no error is raised. *)
Theorem block_loop_exhausted (config : dict) (self : ConfigParser) :
  length (lines self) <= current_line self ->
  block_loop config self = Ok (config, self).
Proof.
  intros H. rewrite block_loop_unfold. unfold Methods.parse_block_step.
  by rewrite (proj2 (lookup_ge_None _ _) H).
Qed.

Lemma block_loop_exhausted_witness :
  let self := {| constants := ∅; current_line := 2;
                 lines := ["{"; "key1 -> 1."] |} in
  length (lines self) <= current_line self /\
  block_loop [("key1", VInt 1)] self = Ok ([("key1", VInt 1)], self).
Proof.
  split; [simpl; lia|]. apply (block_loop_exhausted [("key1", VInt 1)]).
  simpl; lia.
Defined.

(** ** The anonymous nested block *)

(** C4: when the line under the cursor is exactly an opening brace, the
    block reader returns what a nested [parse_block] started on the next
    line returns, whatever entries [config] had accumulated. *)
Theorem anonymous_block_discards (config : dict) (self : ConfigParser)
    (raw : string) :
  lines self !! current_line self = Some raw ->
  Py.strip raw = "{" ->
  block_loop config self = parse_block (advance self) /\
  block_loop config self = block_loop [] self.
Proof.
  intros Hraw Hline.
  assert (forall c, block_loop c self = parse_block (advance self)) as H.
  { intros c. rewrite block_loop_unfold. unfold Methods.parse_block_step.
    by rewrite Hraw, Hline. }
  by rewrite !H.
Qed.

Lemma anonymous_block_discards_witness :
  let self := {| constants := ∅; current_line := 2;
                 lines := ["{"; "a -> 1."; " { "; "b -> 2."; "}"] |} in
  lines self !! current_line self = Some " { " /\
  Py.strip " { " = "{" /\
  block_loop [("a", VInt 1)] self = parse_block (advance self) /\
  block_loop [("a", VInt 1)] self = block_loop [] self.
Proof.
  split; [reflexivity|]. split; [reflexivity|].
  apply (anonymous_block_discards [("a", VInt 1)] _ " { "); reflexivity.
Defined.

(** ** After the top-level block *)

(** C7: once the block that the driver entered at an opening line has
    been read, the lines from the cursor on are scanned: if all of them
    are blank or comments the driver returns the block's mapping, and
    otherwise it raises the expected-end-of-file error, at the first
    line that has content. *)
Theorem parse_after_block (fuel : nat) (self : ConfigParser) (raw : string)
    (config : dict) (self1 : ConfigParser) :
  lines self !! current_line self = Some raw ->
  Py.startswith "{" (Py.strip raw) = true ->
  parse_block (advance self) = Ok (config, self1) ->
  let rest := drop (current_line self1) (lines self1) in
  (Forall (fun l => blank_line l = true) rest ->
   exists self2, parse_loop (S fuel) self = Ok (config, self2)) /\
  (Exists (fun l => blank_line l = false) rest ->
   exists i, first_content rest = Some i /\
     parse_loop (S fuel) self
       = Raise (ExpectedEndOfFile (current_line self1 + i + 1))).
Proof.
  intros Hraw Hopen Hblock rest. cbn [parse_loop].
  destruct (open_line_dispatch _ Hopen) as [Hb Hd].
  rewrite Hraw. cbv zeta. rewrite Hb, Hd, Hopen, Hblock. simpl.
  pose proof (parse_trailing_spec (trailing_fuel self1) config self1
                (Nat.le_refl _)) as Hspec.
  fold rest in Hspec. split.
  - intros Hall%first_content_None. by rewrite Hall in Hspec.
  - intros [i Hi]%first_content_Exists. rewrite Hi in Hspec. eauto.
Qed.

Lemma parse_after_block_witness :
  let self := {| constants := ∅; current_line := 0;
                 lines := ["{"; "k -> 1."; "}"; " "; "x"] |} in
  let self1 := {| constants := ∅; current_line := 3;
                  lines := ["{"; "k -> 1."; "}"; " "; "x"] |} in
  lines self !! current_line self = Some "{" /\
  Py.startswith "{" (Py.strip "{") = true /\
  parse_block (advance self) = Ok ([("k", VInt 1)], self1) /\
  (Forall (fun l => blank_line l = true) [" "; "x"] ->
   exists self2, parse_loop 1 self = Ok ([("k", VInt 1)], self2)) /\
  (Exists (fun l => blank_line l = false) [" "; "x"] ->
   exists i, first_content [" "; "x"] = Some i /\
     parse_loop 1 self = Raise (ExpectedEndOfFile (3 + i + 1))).
Proof.
  intros self self1.
  assert (parse_block (advance self) = Ok ([("k", VInt 1)], self1)) as H
    by (by vm_compute).
  split; [reflexivity|]. split; [reflexivity|]. split; [exact H|].
  exact (parse_after_block 0 self "{" [("k", VInt 1)] self1 eq_refl eq_refl H).
Defined.

(** ** Texts without content *)

(** C8: a text all of whose lines are blank or comments, the empty text
    included, parses to the empty mapping. *)
Theorem parse_blank_text (text : string) (self : ConfigParser) :
  Forall (fun l => blank_line l = true) (Py.split_lines text) ->
  (exists self', parse text self = Ok ([], self')) /\
  parse_text text = Ok [].
Proof.
  intros H.
  assert (forall s, exists s', parse text s = Ok ([], s')) as Hp.
  { intros s. unfold parse.
    edestruct parse_loop_blank as (s' & Hs' & _); [reflexivity| |by eauto].
    by rewrite drop_0. }
  split; [apply Hp|]. unfold parse_text.
  by destruct (Hp ConfigParser_init) as [s' ->].
Qed.

Lemma parse_blank_text_witness :
  Forall (fun l => blank_line l = true)
    (Py.split_lines (Py.join_lines ["*> a comment"; "   "; EmptyString])) /\
  (exists self', parse (Py.join_lines ["*> a comment"; "   "; EmptyString])
                   ConfigParser_init = Ok ([], self')) /\
  parse_text (Py.join_lines ["*> a comment"; "   "; EmptyString]) = Ok [].
Proof.
  assert (Forall (fun l => blank_line l = true)
    (Py.split_lines (Py.join_lines ["*> a comment"; "   "; EmptyString]))) as H.
  { vm_compute. repeat constructor. }
  split; [exact H|]. apply (parse_blank_text _ ConfigParser_init H).
Defined.

(** ** Termination *)

(** C9, as stated, fails: [parse] can end with an exception that is
    not a [ParseError].  A text whose block has an entry with an integer
    of 4301 digits ends with the [ValueError] of [int], and a text of an
    opening line followed by 600 lines that each open a nested mapping
    ends, at the default recursion limit, with [RecursionError]. *)
Lemma parse_uncaught_exception :
  let long_text :=
    Py.join_lines ["{"; "n -> " ++ repeat_char "1" 4301 ++ "."; "}"] in
  parse long_text ConfigParser_init = Uncaught ValueError /\
  Limited.parse Limited.recursion_limit long_text ConfigParser_init
    = Uncaught ValueError /\
  Limited.parse Limited.recursion_limit (nested_text 600) ConfigParser_init
    = Uncaught RecursionError.
Proof. vm_compute. done. Qed.

(** C9, amended: [parse], called with any number of frames left, always
    ends: with a mapping, with a [ParseError], with the [ValueError] of
    [int], or with [RecursionError]; unless it is the last, the result
    is the one of the run on a call stack that never overflows, which
    always ends too, and it is not the last when the frames left are at
    least four for every character and every line of the text, and
    three.  The bound inside the block loop is never reached: a larger
    bound gives the same result, and the block loop leaves the lines as
    they are and the cursor where it was or further on. *)
Theorem parse_terminates (depth : nat) (text : string) (self : ConfigParser) :
  ((exists config self', Limited.parse depth text self = Ok (config, self')) \/
   (exists e, Limited.parse depth text self = Raise e) \/
   Limited.parse depth text self = Uncaught ValueError \/
   Limited.parse depth text self = Uncaught RecursionError) /\
  (Limited.parse depth text self = Uncaught RecursionError \/
   Limited.parse depth text self = parse text self) /\
  (parse_frames text <= depth ->
   Limited.parse depth text self = parse text self) /\
  parse text self <> OutOfFuel /\
  (forall n config s,
     parse_block_loop (block_fuel s + n) config s = block_loop config s) /\
  (forall config s,
     match block_loop config s with
     | Ok (_, s') => lines s' = lines s /\ current_line s <= current_line s'
     | Raise _ | Uncaught _ => True
     | OutOfFuel => False
     end).
Proof.
  pose proof (parse_refines depth text self) as Hr.
  pose proof (parse_total text self) as Ht.
  split; [|split; [exact Hr|split; [apply parse_enough|split; [exact Ht|split]]]].
  - destruct Hr as [-> | ->]; [by auto|].
    destruct (parse text self) as [[config s']|e|[]|];
      [left; eauto | right; left; eauto | by auto | by auto | done].
  - intros n config s. apply parse_block_loop_stable. lia.
  - intros config s. pose proof (block_loop_total config s) as Ht'.
    pose proof (block_loop_grows config s) as Hg.
    destruct (block_loop config s) as [[d s']|e|x|]; [|done|done|done].
    destruct (Hg d s' eq_refl) as (? & ? & _). done.
Qed.

Lemma parse_terminates_witness :
  let text := Py.join_lines ["def A = 1;"; "{"; "  a -> {"; "    b -> |A|.";
                             "  }."; EmptyString; "  c -> { d -> 2. }.";
                             "}"] in
  parse_frames text <= Limited.recursion_limit /\
  Limited.parse Limited.recursion_limit text ConfigParser_init
    = parse text ConfigParser_init /\
  exists self',
    parse text ConfigParser_init
      = Ok ([("a", VDict [("b", VInt 1)]); ("c", VDict [("d", VInt 2)])], self').
Proof.
  intros text.
  assert (parse_frames text <= Limited.recursion_limit) as H
    by (apply Nat.leb_le; reflexivity).
  destruct (parse_terminates Limited.recursion_limit text ConfigParser_init)
    as (_ & _ & Henough & _).
  split; [exact H|]. split; [exact (Henough H)|].
  eexists. vm_compute. reflexivity.
Defined.

(** ** Lines that start with [def] *)

(** C10: a line whose stripped text starts with [def] is handed to
    [parse_constant_declaration], in a block and in the driver alike;
    when the line has the form of an entry, that call, and with it the
    block and the driver, raises the invalid-constant-declaration error. *)
Theorem def_prefix_dispatch (fuel : nat) (config : dict) (self : ConfigParser)
    (raw : string) :
  lines self !! current_line self = Some raw ->
  Py.startswith "def" (Py.strip raw) = true ->
  let line := Py.strip raw in
  block_loop config self
    = bind (parse_constant_declaration line self) (block_loop config) /\
  parse_loop (S fuel) self
    = bind (parse_constant_declaration line self) (parse_loop fuel) /\
  (is_Some (Re.rmatch Re.entry_pattern line) \/
   is_Some (Re.rmatch Re.nested_pattern line) ->
   let e := InvalidConstantDeclaration (current_line self + 1) in
   parse_constant_declaration line self = Raise e /\
   block_loop config self = Raise e /\
   parse_loop (S fuel) self = Raise e).
Proof.
  intros Hraw Hdef line.
  pose proof (def_line_dispatch _ Hdef) as Hb.
  pose proof (block_loop_def config self raw Hraw Hdef) as H1. fold line in H1.
  assert (parse_loop (S fuel) self
    = bind (parse_constant_declaration line self) (parse_loop fuel)) as H2.
  { cbn [parse_loop]. rewrite Hraw. cbv zeta. by rewrite Hb, Hdef. }
  split; [done|]. split; [done|].
  intros Hentry e.
  assert (parse_constant_declaration line self = Raise e) as H3.
  { unfold parse_constant_declaration, Methods.parse_constant_declaration.
    by rewrite (ReFacts.entry_not_constant _ Hentry). }
  by rewrite H1, H2, H3.
Qed.

Lemma def_prefix_dispatch_witness :
  let self := {| constants := ∅; current_line := 1;
                 lines := ["{"; "  default -> 1."; "}"] |} in
  lines self !! current_line self = Some "  default -> 1." /\
  Py.startswith "def" (Py.strip "  default -> 1.") = true /\
  parse_constant_declaration "default -> 1." self
    = Raise (InvalidConstantDeclaration 2) /\
  block_loop [] self = Raise (InvalidConstantDeclaration 2) /\
  parse_loop 1 self = Raise (InvalidConstantDeclaration 2).
Proof.
  intros self. split; [reflexivity|]. split; [reflexivity|].
  destruct (def_prefix_dispatch 0 [] self "  default -> 1." eq_refl eq_refl)
    as (_ & _ & H).
  apply H. left. eexists. vm_compute. reflexivity.
Defined.

(** ** Number literals *)

(** C5, as stated, fails: a token of 4301 digits is trimmed, has the
    number syntax and no period, and is neither an integer nor rejected
    with a [ParseError]: [int] raises [ValueError]. *)
Lemma long_integer_is_not_read :
  let value := repeat_char "1" 4301 in
  Py.strip value = value /\
  Py.startswith "[[" value || Py.startswith "{" value
    || Py.startswith "|" value = false /\
  Re.rmatch Re.number_pattern value = Some [] /\
  Py.contains "." value = false /\
  parse_value value ConfigParser_init = Uncaught ValueError.
Proof. vm_compute. done. Qed.

(** C5, amended: a stripped token that is not delimited as text, as an
    inline mapping or as a constant reference is a number literal.  When
    it has the number syntax it is a float, the binary64 number nearest
    to it, if it contains a period; if not, it is an integer when it has
    at most 4300 digits, and with more digits [int] raises [ValueError],
    which is not a [ParseError].  When it has not the number syntax, the
    invalid-number-format error is raised with the token in it. *)
Theorem number_literal (value : string) (self : ConfigParser) :
  Py.strip value = value ->
  Py.startswith "[[" value && Py.endswith "]]" value = false ->
  Py.startswith "{" value && Py.endswith "}" value = false ->
  Py.startswith "|" value && Py.endswith "|" value = false ->
  (ReSpec.number_token value ->
   parse_value value self
     = if Py.contains "." value then Ok (VFloat (Py.float value), self)
       else if Py.count_digits value <=? Py.int_max_str_digits then
         Ok (VInt (if Py.negative value then - Py.digits_value 0 value
                   else Py.digits_value 0 value)%Z, self)
       else Uncaught ValueError) /\
  (~ ReSpec.number_token value ->
   parse_value value self
     = Raise (InvalidNumberFormat value (current_line self + 1))).
Proof.
  intros Hs H1 H2 H3.
  unfold parse_value, Methods.parse_value, Methods.parse_number.
  rewrite H1, H2, H3.
  pose proof (ReFacts.number_pattern_spec value Hs) as Hspec.
  destruct (Re.rmatch Re.number_pattern value) as [g|].
  - split; [|intros Hn; destruct Hn; by apply Hspec].
    intros _. destruct (Py.contains "." value); [done|].
    unfold Py.int. rewrite Nat.ltb_antisym.
    by destruct (Py.count_digits value <=? Py.int_max_str_digits).
  - split; [|done]. intros [g Hg]%Hspec. done.
Qed.

Lemma number_literal_witness :
  (Py.strip "45.67" = "45.67" /\
   parse_value "45.67" ConfigParser_init
     = Ok (VFloat (S754_finite false 6427481093187830 (-47)), ConfigParser_init)) /\
  (Py.strip "-123" = "-123" /\
   parse_value "-123" ConfigParser_init = Ok (VInt (-123), ConfigParser_init)) /\
  (Py.strip "12a" = "12a" /\
   parse_value "12a" ConfigParser_init = Raise (InvalidNumberFormat "12a" 1)).
Proof.
  split; [|split].
  - split; [reflexivity|].
    destruct (number_literal "45.67" ConfigParser_init) as [H _];
      [reflexivity..|].
    rewrite H; [by vm_compute|].
    exists EmptyString, "45", ".67". repeat split; [by left|]. right. by exists "67".
  - split; [reflexivity|].
    destruct (number_literal "-123" ConfigParser_init) as [H _];
      [reflexivity..|].
    rewrite H; [by vm_compute|].
    exists "-", "123", EmptyString. repeat split; [by right | by left].
  - split; [reflexivity|].
    destruct (number_literal "12a" ConfigParser_init) as [_ H];
      [reflexivity..|].
    apply H. intros Hn.
    apply (ReFacts.number_pattern_spec "12a" eq_refl) in Hn.
    destruct Hn as [g Hg]. vm_compute in Hg. discriminate Hg.
Defined.

(** ** Constant references *)

Lemma parse_reference name self :
  parse_value ("|" ++ name ++ "|") self
    = match constants self !! name with
      | Some v => Ok (v, self)
      | None => Raise (UndefinedConstant name (current_line self + 1))
      end.
Proof.
  unfold parse_value, Methods.parse_value, Methods.parse_constant.
  change ("|" ++ name ++ "|") with (String "|" (name ++ "|")).
  rewrite slice_delimited.
  change (String "|" (name ++ "|")) with (String "|" name ++ "|").
  rewrite endswith_app. simpl. by destruct (constants self !! name).
Qed.

Lemma declaration_inv line self self1 :
  parse_constant_declaration line self = Ok self1 ->
  exists name token v,
    declaration_of line = Some (name, token) /\
    parse_value token self = Ok (v, self) /\
    self1 = advance (set_constant name v self).
Proof.
  intros (groups & v & Hg & Hv & ->)%parse_constant_declaration_inv.
  unfold declaration_of. rewrite Hg. eauto 6.
Qed.

(** A matching declaration line parses its value token and binds the
    name to the result. *)
Lemma declaration_unfold line name token self :
  declaration_of line = Some (name, token) ->
  parse_constant_declaration line self
    = bind (parse_value token self) (fun '(v, self1) =>
        Ok (advance (set_constant name v self1))).
Proof.
  unfold declaration_of, parse_constant_declaration,
    Methods.parse_constant_declaration.
  destruct (Re.rmatch Re.constant_pattern line) as [groups|]; [|done].
  by intros [= <- <-].
Qed.

(** C6: a reference to [name] gives the value the table holds for it,
    and raises the undefined-constant error when the table has none.  A
    declaration line for [name] parses its value token and binds [name]
    to the result in the table of [self]: when the token parses to [v]
    the declaration succeeds and every reference to [name] after it
    gives [v], whatever was bound before; a declaration of another name
    leaves the binding of [name] as it was. *)
Theorem constant_reference (name : string) (self : ConfigParser) :
  parse_value ("|" ++ name ++ "|") self
    = match constants self !! name with
      | Some v => Ok (v, self)
      | None => Raise (UndefinedConstant name (current_line self + 1))
      end /\
  (forall line token self1,
     declaration_of line = Some (name, token) ->
     parse_constant_declaration line self = Ok self1 ->
     exists v, parse_value token self = Ok (v, self) /\
       parse_value ("|" ++ name ++ "|") self1 = Ok (v, self1)) /\
  (forall line other token self1,
     declaration_of line = Some (other, token) -> other <> name ->
     parse_constant_declaration line self = Ok self1 ->
     constants self1 !! name = constants self !! name) /\
  (forall line token,
     declaration_of line = Some (name, token) ->
     parse_constant_declaration line self
       = bind (parse_value token self) (fun '(v, self1) =>
           Ok (advance (set_constant name v self1)))) /\
  (forall line token v,
     declaration_of line = Some (name, token) ->
     parse_value token self = Ok (v, self) ->
     let self1 := advance (set_constant name v self) in
     parse_constant_declaration line self = Ok self1 /\
     parse_value ("|" ++ name ++ "|") self1 = Ok (v, self1) /\
     forall other, other <> name ->
       constants self1 !! other = constants self !! other).
Proof.
  split; [apply parse_reference|]. split; [|split; [|split]].
  - intros line token self1 Hd
      (name' & token' & v & Hd' & Hv & ->)%declaration_inv.
    rewrite Hd in Hd'. injection Hd' as <- <-.
    exists v. split; [done|]. rewrite parse_reference. simpl.
    by rewrite lookup_insert_eq.
  - intros line other token self1 Hd Hne
      (name' & token' & v & Hd' & Hv & ->)%declaration_inv.
    rewrite Hd in Hd'. injection Hd' as <- <-. simpl.
    by rewrite lookup_insert_ne.
  - intros line token. apply declaration_unfold.
  - intros line token v Hd Hv self1. split; [|split].
    + by rewrite (declaration_unfold _ _ _ _ Hd), Hv.
    + rewrite parse_reference. subst self1. simpl.
      by rewrite lookup_insert_eq.
    + intros other Hne. subst self1. simpl. by rewrite lookup_insert_ne.
Qed.

Lemma constant_reference_witness :
  let self0 := ConfigParser_init in
  let self1 := advance (set_constant "CONST" (VInt 100) self0) in
  let self2 := advance (set_constant "CONST" (VInt 200) self1) in
  parse_value "|CONST|" self0 = Raise (UndefinedConstant "CONST" 1) /\
  (declaration_of "def CONST = 100;" = Some ("CONST", "100") /\
   parse_value "100" self0 = Ok (VInt 100, self0) /\
   parse_constant_declaration "def CONST = 100;" self0 = Ok self1 /\
   parse_value "|CONST|" self1 = Ok (VInt 100, self1)) /\
  (declaration_of "def CONST = 200;" = Some ("CONST", "200") /\
   parse_value "200" self1 = Ok (VInt 200, self1) /\
   parse_constant_declaration "def CONST = 200;" self1 = Ok self2 /\
   parse_value "|CONST|" self2 = Ok (VInt 200, self2)) /\
  parse_value "|OTHER|" self2 = Raise (UndefinedConstant "OTHER" 3).
Proof.
  intros self0 self1 self2.
  destruct (constant_reference "CONST" self0) as (R0 & _ & _ & _ & D0).
  destruct (constant_reference "CONST" self1) as (_ & _ & _ & _ & D1).
  destruct (constant_reference "OTHER" self2) as (R2 & _).
  assert (declaration_of "def CONST = 100;" = Some ("CONST", "100")) as E0
    by reflexivity.
  assert (parse_value "100" self0 = Ok (VInt 100, self0)) as V0
    by reflexivity.
  assert (declaration_of "def CONST = 200;" = Some ("CONST", "200")) as E1
    by reflexivity.
  assert (parse_value "200" self1 = Ok (VInt 200, self1)) as V1
    by reflexivity.
  destruct (D0 _ _ _ E0 V0) as (P0 & Q0 & _).
  destruct (D1 _ _ _ E1 V1) as (P1 & Q1 & _).
  split; [exact R0|]. split; [by repeat split|]. split; [by repeat split|].
  exact R2.
Defined.

(** ** The two ways of nesting a mapping *)

(** C1: a value token that starts with an opening brace and ends with a
    closing brace is parsed by [parse_block] on a new parser whose table
    is the table of [self] at this moment; [self] comes back as it was,
    so the entry it belongs to leaves the table unchanged, and a name
    the table did not hold before is still undefined for what follows. *)
Theorem inline_mapping_isolated (value : string) (self : ConfigParser) :
  Py.startswith "{" value = true ->
  Py.endswith "}" value = true ->
  let nested_parser :=
    {| constants := constants self;
       current_line := 0;
       lines := Py.split_lines (Py.strip (Py.slice 1 1 value)) |} in
  parse_value value self
    = bind (parse_block nested_parser) (fun '(config, _) =>
        Ok (VDict config, self)) /\
  (forall x self', parse_value value self = Ok (x, self') -> self' = self) /\
  (forall config line groups config' self',
     Re.rmatch Re.entry_pattern line = Some groups ->
     Py.strip (nth 1 groups EmptyString) = value ->
     parse_entry config line self = Ok (config', self') ->
     self' = self /\
     forall name, constants self !! name = None ->
       parse_value ("|" ++ name ++ "|") self'
         = Raise (UndefinedConstant name (current_line self + 1))).
Proof.
  intros Hopen Hclose nested_parser. split; [|split].
  - unfold parse_value, Methods.parse_value, Methods.parse_dict.
    rewrite Hopen, Hclose. apply startswith_cons in Hopen as [v ->]. done.
  - intros x self'. apply parse_value_self.
  - intros config line groups config' self' Hg Hv.
    unfold parse_entry, Methods.parse_entry. rewrite Hg, Hv.
    intros ([x s1] & Hx%parse_value_self & [= _ <-])%bind_Ok. subst s1.
    split; [done|]. intros name Hname. by rewrite parse_reference, Hname.
Qed.

Lemma inline_mapping_isolated_witness :
  let value := "{ def X = 5; }" in
  let self := ConfigParser_init in
  Py.startswith "{" value = true /\
  Py.endswith "}" value = true /\
  parse_value value self = Ok (VDict [], self) /\
  (forall config' self',
     parse_entry [] "key1 -> { def X = 5; }." self = Ok (config', self') ->
     self' = self /\
     parse_value "|X|" self' = Raise (UndefinedConstant "X" 1)).
Proof.
  intros value self. split; [reflexivity|]. split; [reflexivity|].
  destruct (inline_mapping_isolated value self eq_refl eq_refl)
    as (H1 & _ & H3).
  split; [rewrite H1; by vm_compute|].
  intros config' self' H.
  destruct (H3 [] "key1 -> { def X = 5; }." ["key1"; "{ def X = 5; }"]
              config' self' eq_refl eq_refl H) as [-> HX].
  split; [done|]. by apply (HX "X").
Defined.

(** C2: an entry line of the form [key -> {] is parsed by [parse_block]
    on [self] itself, moved to the next line: the block starts with the
    table of [self], the parser it returns is the parser the entry
    returns, every name bound before is bound after, and a declaration
    read by a block's loop is bound in the parser that loop returns.
    The nested block always ends; its loop, at a declaration line whose
    value token parses to [v], goes on with the name bound to [v] in
    that same parser, and at a closing line returns that parser with
    the table as it stands. *)
Theorem structural_nesting_shares (config : dict) (line : string)
    (self : ConfigParser) (groups : list string) :
  Re.rmatch Re.nested_pattern line = Some groups ->
  let key := nth 0 groups EmptyString in
  parse_entry config line self
    = bind (parse_block (advance self)) (fun '(nested_config, self1) =>
        Ok (dict_set key (VDict nested_config) config, self1)) /\
  constants (advance self) = constants self /\
  (forall nested_config self1,
     parse_block (advance self) = Ok (nested_config, self1) ->
     forall name, is_Some (constants self !! name) ->
       is_Some (constants self1 !! name)) /\
  (forall c s raw s1 d s',
     lines s !! current_line s = Some raw ->
     Py.startswith "def" (Py.strip raw) = true ->
     parse_constant_declaration (Py.strip raw) s = Ok s1 ->
     block_loop c s = Ok (d, s') ->
     exists name token,
       declaration_of (Py.strip raw) = Some (name, token) /\
       is_Some (constants s' !! name)) /\
  parse_block (advance self) <> OutOfFuel /\
  (forall c s raw name token v,
     lines s !! current_line s = Some raw ->
     Py.startswith "def" (Py.strip raw) = true ->
     declaration_of (Py.strip raw) = Some (name, token) ->
     parse_value token s = Ok (v, s) ->
     block_loop c s = block_loop c (advance (set_constant name v s))) /\
  (forall c s raw,
     lines s !! current_line s = Some raw ->
     Py.strip raw = "}" \/ Py.strip raw = "}." ->
     block_loop c s = Ok (c, advance s)).
Proof.
  intros Hg key. split; [|split; [done|split; [|split; [|split; [|split]]]]].
  - unfold parse_entry, Methods.parse_entry.
    by rewrite (ReFacts.nested_not_entry _ _ Hg), Hg.
  - intros nested_config self1 (_ & _ & H)%parse_block_grows. exact H.
  - intros c s raw s1 d s' Hraw Hdef Hdecl Hloop.
    rewrite (block_loop_def c s raw Hraw Hdef), Hdecl in Hloop. simpl in Hloop.
    apply block_loop_grows in Hloop as (_ & _ & Hloop).
    apply declaration_inv in Hdecl as (name & token & v & Hd & _ & ->).
    exists name, token. split; [done|]. apply Hloop. simpl.
    by rewrite lookup_insert_eq.
  - apply parse_block_total.
  - intros c s raw name token v Hraw Hdef Hd Hv.
    by rewrite (block_loop_def c s raw Hraw Hdef),
      (declaration_unfold _ _ _ _ Hd), Hv.
  - intros c s raw Hraw Hclose. rewrite block_loop_unfold.
    unfold Methods.parse_block_step. rewrite Hraw. cbv zeta.
    by destruct Hclose as [-> | ->].
Qed.

Lemma structural_nesting_shares_witness :
  let ls := ["{"; "key1 -> {"; " def X = 5;"; " a -> |A|."; "}.";
             EmptyString; "k -> |X|."; "}."] in
  let self := {| constants := {["A" := VInt 1]}; current_line := 1;
                 lines := ls |} in
  let self1 := {| constants := <["X" := VInt 5]> {["A" := VInt 1]};
                  current_line := 5; lines := ls |} in
  Re.rmatch Re.nested_pattern "key1 -> {" = Some ["key1"] /\
  parse_entry [] "key1 -> {" self
    = Ok ([("key1", VDict [("a", VInt 1)])], self1) /\
  parse_value "|A|" self1 = Ok (VInt 1, self1) /\
  parse_value "|X|" self1 = Ok (VInt 5, self1) /\
  (let s := advance self in
   lines s !! current_line s = Some " def X = 5;" /\
   declaration_of "def X = 5;" = Some ("X", "5") /\
   parse_value "5" s = Ok (VInt 5, s) /\
   block_loop [] s = block_loop [] (advance (set_constant "X" (VInt 5) s))) /\
  (let s := {| constants := constants self1; current_line := 4; lines := ls |} in
   lines s !! current_line s = Some "}." /\
   block_loop [("a", VInt 1)] s = Ok ([("a", VInt 1)], self1)).
Proof.
  intros ls self self1.
  destruct (structural_nesting_shares [] "key1 -> {" self ["key1"] eq_refl)
    as (H1 & _ & _ & _ & _ & H6 & H7).
  split; [reflexivity|]. split; [rewrite H1; by vm_compute|].
  split; [by vm_compute|]. split; [by vm_compute|]. split.
  - intros s. split; [reflexivity|]. split; [reflexivity|].
    split; [reflexivity|].
    exact (H6 [] s " def X = 5;" "X" "5" (VInt 5)
             eq_refl eq_refl eq_refl eq_refl).
  - intros s. split; [reflexivity|].
    exact (H7 [("a", VInt 1)] s "}." eq_refl (or_intror eq_refl)).
Defined.

(** ** The tests of [test_config_parser.py]

    The texts of the tests, with Latin-1 letters in place of the
    Cyrillic ones, and a few more that show the behaviour discussed
    above. *)

Example test_empty_file : run [EmptyString] = Ok [].
Proof. reflexivity. Qed.

Example test_only_comments : run ["*> a comment"; "*> another"] = Ok [].
Proof. reflexivity. Qed.

Example test_single_entry :
  run ["{"; "    key1 -> 123."; "}."] = Ok [("key1", VInt 123)].
Proof. by vm_compute. Qed.

Example test_multiple_entries :
  run ["{"; "    key1 -> 123."; "    key2 -> [[Text]]."; "    key3 -> 45.67.";
       "}."]
  = Ok [("key1", VInt 123); ("key2", VText "Text");
        ("key3", VFloat (S754_finite false 6427481093187830 (-47)))].
Proof. by vm_compute. Qed.

Example test_nested_dictionary :
  run ["{"; "    parent -> {"; "        child1 -> 1.";
       "        child2 -> [[Value]]."; "    }."; "}."]
  = Ok [("parent", VDict [("child1", VInt 1); ("child2", VText "Value")])].
Proof. by vm_compute. Qed.

Example test_constant_declaration_and_usage :
  run [EmptyString; "def CONST = [[Constant]];"; "{"; "    key1 -> |CONST|.";
       "}."]
  = Ok [("key1", VText "Constant")].
Proof. by vm_compute. Qed.

Example test_constant_overwrite :
  run [EmptyString; "def CONST = 100;"; "def CONST = 200;"; "{";
       "    key1 -> |CONST|."; "}."]
  = Ok [("key1", VInt 200)].
Proof. by vm_compute. Qed.

Example test_undefined_constant_usage :
  run [EmptyString; "{"; "    key1 -> |UNDEFINED|."; "}."]
  = Raise (UndefinedConstant "UNDEFINED" 3).
Proof. by vm_compute. Qed.

Example test_invalid_constant_declaration :
  run ["def123 = 456;."; "{ key1 -> 456. }."]
  = Raise (InvalidConstantDeclaration 1).
Proof. by vm_compute. Qed.

Example test_invalid_entry_syntax :
  run ["{"; "    key1 => 123."; "}."] = Raise (InvalidEntry 2).
Proof. by vm_compute. Qed.

Example test_invalid_number :
  run ["{"; "    key1 -> 12a3."; "}."] = Raise (InvalidNumberFormat "12a3" 2).
Proof. by vm_compute. Qed.

Example test_example_network_configuration :
  run [EmptyString; "*> network"; "def IP = [[192.168.1.1]];"; "{";
       "    hostname -> [[server]]."; "    ip_address -> |IP|.";
       "    services -> {"; "        http -> 80."; "        https -> 443.";
       "        ssh -> 22."; "    }."; "}."]
  = Ok [("hostname", VText "server"); ("ip_address", VText "192.168.1.1");
        ("services", VDict [("http", VInt 80); ("https", VInt 443);
                            ("ssh", VInt 22)])].
Proof. by vm_compute. Qed.

(** A constant declared in an inline mapping is gone after it. *)
Example inline_scope :
  run ["{"; "    key1 -> { def X = 5; }."; "    k -> |X|."; "}."]
  = Raise (UndefinedConstant "X" 3).
Proof. by vm_compute. Qed.

(** A constant declared in a structurally nested block stays. *)
Example structural_scope :
  run ["{"; "    key1 -> {"; "        def X = 5;"; "    }."; EmptyString;
       "    k -> |X|."; "}."]
  = Ok [("key1", VDict []); ("k", VInt 5)].
Proof. by vm_compute. Qed.

(** An entry whose key starts with [def]. *)
Example default_entry :
  run ["{"; "    default -> 1."; "}."] = Raise (InvalidConstantDeclaration 2).
Proof. by vm_compute. Qed.

(** Content after the top-level block. *)
Example trailing_content :
  run ["{"; "    key1 -> 1."; "}."; EmptyString; "key2 -> 2."]
  = Raise (ExpectedEndOfFile 5).
Proof. by vm_compute. Qed.

(** An opening brace among the entries. *)
Example anonymous_block :
  run ["{"; "    key1 -> 1."; "    {"; "    key2 -> 2."; "    }"]
  = Ok [("key2", VInt 2)].
Proof. by vm_compute. Qed.

(** The line that follows the close of a structurally nested block is
    stepped over, and the enclosing block ends when the lines run out. *)
Example line_after_nested_block :
  run ["{"; "    parent -> {"; "        child1 -> 1."; "    }.";
       "this line is never read"]
  = Ok [("parent", VDict [("child1", VInt 1)])].
Proof. by vm_compute. Qed.

(** The interior of an inline mapping has no closing line either: the
    block read by [parse_dict] always ends when its lines run out. *)
Example inline_mapping_value :
  parse_value "{ a -> 1. }" ConfigParser_init
  = Ok (VDict [("a", VInt 1)], ConfigParser_init).
Proof. by vm_compute. Qed.

(** [float] rounds to the nearest binary64 number: [0.1] is
    [0x1.999999999999ap-4], a text of more than 308 digits before the
    period is infinite, and the sign of a zero is kept. *)
Example float_tenth :
  Py.float "0.1" = S754_finite false 7205759403792794 (-56).
Proof. by vm_compute. Qed.

Example float_rounds :
  Py.float "0.30000000000000004" = Py.float "0.3000000000000000444".
Proof. by vm_compute. Qed.

Example float_overflow :
  Py.float (repeat_char "1" 400 ++ ".5") = S754_infinity false.
Proof. by vm_compute. Qed.

Example float_negative_zero : Py.float "-0.0" = S754_zero true.
Proof. by vm_compute. Qed.

Example float_subnormal :
  Py.float ("0." ++ repeat_char "0" 320 ++ "1") = S754_finite false 202 (-1074).
Proof. by vm_compute. Qed.

(** [int] at its limit: 4300 digits are read, one more is refused. *)
Example int_at_the_limit :
  Py.int (repeat_char "9" 4300) = Some (10 ^ 4300 - 1)%Z /\
  Py.int ("-" ++ repeat_char "0" 4301) = None.
Proof. by vm_compute. Qed.

(** A configuration with a declaration and a nested mapping on the
    bounded call stack, and a hundred nested mappings, each left open. *)
Example limited_network_configuration :
  bind (Limited.parse Limited.recursion_limit
          (Py.join_lines
             ["def MAX_CONNECTIONS = 100;"; "{"; "    server -> {";
              "        host -> [[localhost]]."; "        port -> 8080.";
              "    }."; EmptyString;
              "    max_connections -> |MAX_CONNECTIONS|."; "}."])
          ConfigParser_init)
       (fun '(config, _) => Ok config)
  = Ok [("server", VDict [("host", VText "localhost"); ("port", VInt 8080)]);
        ("max_connections", VInt 100)].
Proof. by vm_compute. Qed.

Example limited_hundred_nested :
  Limited.parse Limited.recursion_limit (nested_text 100) ConfigParser_init
    = parse (nested_text 100) ConfigParser_init.
Proof. by vm_compute. Qed.

(** * Further properties of the parser *)

(** ** Text literals *)

Lemma slice_text (inner : string) :
  Py.slice 2 2 ("[[" ++ inner ++ "]]") = inner.
Proof.
  unfold Py.slice. simpl. rewrite length_app. simpl.
  replace (String.length inner + 2 - 0 - 2) with (String.length inner) by lia.
  apply take_app_exact.
Qed.

Lemma parse_text_token inner self :
  parse_value ("[[" ++ inner ++ "]]") self = Ok (VText inner, self).
Proof.
  unfold parse_value, Methods.parse_value, Methods.parse_string.
  rewrite slice_text.
  change ("[[" ++ inner ++ "]]") with (("[[" ++ inner) ++ "]]").
  by rewrite endswith_app.
Qed.

(** X1: a token made of [[[], any text and []]] is the text literal with
    exactly that text: nothing is trimmed or unescaped, and the parser
    is left as it is. *)
Theorem text_literal (inner : string) (self : ConfigParser) :
  parse_value ("[[" ++ inner ++ "]]") self = Ok (VText inner, self).
Proof.
  unfold parse_value, Methods.parse_value, Methods.parse_string.
  assert (Py.startswith "[[" ("[[" ++ inner ++ "]]") = true) as -> by done.
  assert (Py.endswith "]]" ("[[" ++ inner ++ "]]") = true) as ->
    by apply (endswith_app ("[[" ++ inner) "]]").
  cbn [andb]. by rewrite slice_text.
Qed.

(** ** The first line with content *)

Lemma parse_loop_skip (pre : list string) : forall fuel s l rest,
  drop (current_line s) (lines s) = (pre ++ l :: rest)%list ->
  Forall (fun x => blank_line x = true) pre ->
  trailing_fuel s <= fuel ->
  exists fuel' s',
    parse_loop fuel s = parse_loop (S fuel') s' /\
    constants s' = constants s /\ lines s' = lines s /\
    current_line s' = current_line s + length pre /\
    lines s' !! current_line s' = Some l.
Proof.
  induction pre as [|b pre IH]; intros fuel s l rest Hd Hb Hf.
  - destruct fuel as [|fuel]; [unfold trailing_fuel in Hf; lia|].
    exists fuel, s. rewrite Nat.add_0_r. repeat split.
    rewrite <- (Nat.add_0_r (current_line s)), <- lookup_drop, Hd. done.
  - destruct fuel as [|fuel]; [unfold trailing_fuel in Hf; lia|].
    inversion Hb as [|? ? Hb1 Hb2]; subst.
    assert (lines s !! current_line s = Some b) as Hl.
    { rewrite <- (Nat.add_0_r (current_line s)), <- lookup_drop, Hd. done. }
    rewrite (drop_S _ _ _ Hl) in Hd. injection Hd as Hd.
    destruct (IH fuel (advance s) l rest) as (fuel' & s' & He & Hc & Hls & Hcur & Hlk).
    + simpl. by rewrite Nat.add_1_r.
    + done.
    + by eapply trailing_fuel_advance.
    + exists fuel', s'. split.
      * cbn [parse_loop]. rewrite Hl. cbv zeta.
        unfold blank_line in Hb1. by rewrite Hb1.
      * simpl in *. repeat split; try done. lia.
Qed.

(** X2: when the first line of the text that is neither blank nor a
    comment starts neither with [def] nor with an opening brace, [parse]
    raises the expected-opening-brace error with the number of that
    line. *)
Theorem parse_expects_opening_brace (text : string) (self : ConfigParser)
    (pre : list string) (l : string) (rest : list string) :
  Py.split_lines text = (pre ++ l :: rest)%list ->
  Forall (fun x => blank_line x = true) pre ->
  blank_line l = false ->
  Py.startswith "def" (Py.strip l) = false ->
  Py.startswith "{" (Py.strip l) = false ->
  parse text self = Raise (ExpectedOpeningBrace (length pre + 1)).
Proof.
  intros Hs Hpre Hb Hd Ho. unfold parse.
  edestruct (parse_loop_skip pre) as (fuel' & s' & -> & _ & _ & Hcur & Hl);
    [|exact Hpre|reflexivity|].
  { simpl. rewrite drop_0. exact Hs. }
  cbn [parse_loop]. rewrite Hl. cbv zeta. unfold blank_line in Hb.
  rewrite Hb, Hd, Ho, Hcur. done.
Qed.

Lemma parse_expects_opening_brace_witness :
  let text := Py.join_lines ["*> settings"; EmptyString; "key1 -> 1."; "}"] in
  Py.split_lines text
    = (["*> settings"; EmptyString] ++ "key1 -> 1." :: ["}"])%list /\
  parse text ConfigParser_init = Raise (ExpectedOpeningBrace 3).
Proof.
  intros text. split; [reflexivity|].
  apply (parse_expects_opening_brace text ConfigParser_init
           ["*> settings"; EmptyString] "key1 -> 1." ["}"]);
    [reflexivity | repeat constructor | reflexivity | reflexivity | reflexivity].
Defined.

(** ** What [parse] leaves in the parser *)

Lemma parse_trailing_grows fuel : forall config s d s',
  parse_trailing fuel config s = Ok (d, s') -> d = config /\ grows s s'.
Proof.
  induction fuel as [|fuel IH]; intros config s d s'; [done|].
  cbn [parse_trailing].
  destruct (lines s !! current_line s) as [raw|].
  - cbv zeta. destruct (blank_or_comment (Py.strip raw)); [|done].
    intros [-> Hg]%IH. split; [done|].
    eapply grows_trans; [apply grows_advance | exact Hg].
  - intros [= <- <-]. split; [done | apply grows_refl].
Qed.

Lemma parse_loop_grows fuel : forall s d s',
  parse_loop fuel s = Ok (d, s') -> grows s s'.
Proof.
  induction fuel as [|fuel IH]; intros s d s'; [done|].
  cbn [parse_loop].
  destruct (lines s !! current_line s) as [raw|];
    [|intros [= _ <-]; apply grows_refl].
  cbv zeta. repeat case_match; try done.
  - intros Hk%IH. eapply grows_trans; [apply grows_advance | exact Hk].
  - intros (s1 & Hd%parse_constant_declaration_grows & Hk%IH)%bind_Ok.
    by eapply grows_trans.
  - intros ([config s1] & Hb%parse_block_grows & [_ Hk]%parse_trailing_grows)%bind_Ok.
    eapply grows_trans; [apply grows_advance|]. by eapply grows_trans.
Qed.

(** X3: [parse] replaces the lines of the parser by those of the text
    and keeps every constant the parser already had: a parser used for a
    second text still knows the constants declared in the first. *)
Theorem parse_keeps_constants (text : string) (self : ConfigParser)
    (config : dict) (self' : ConfigParser) :
  parse text self = Ok (config, self') ->
  lines self' = Py.split_lines text /\
  forall name, is_Some (constants self !! name) ->
    is_Some (constants self' !! name).
Proof.
  unfold parse. intros (Hl & _ & Hc)%parse_loop_grows. by split.
Qed.

Lemma parse_keeps_constants_witness :
  let text := Py.join_lines ["{"; "k -> |A|."; "}"] in
  let self := set_constant "A" (VInt 7) ConfigParser_init in
  let self' := {| constants := constants self; current_line := 3;
                  lines := ["{"; "k -> |A|."; "}"] |} in
  parse text self = Ok ([("k", VInt 7)], self') /\
  lines self' = Py.split_lines text /\
  forall name, is_Some (constants self !! name) ->
    is_Some (constants self' !! name).
Proof.
  intros text self self'.
  assert (parse text self = Ok ([("k", VInt 7)], self')) as H by (by vm_compute).
  split; [exact H|]. exact (parse_keeps_constants text self _ self' H).
Defined.

(** ** The lines that end and resume a block *)

Lemma block_loop_past_end config self :
  length (lines self) <= current_line self ->
  block_loop config self = Ok (config, self).
Proof.
  intros H. rewrite block_loop_unfold. unfold Methods.parse_block_step.
  by rewrite (proj2 (lookup_ge_None _ _) H).
Qed.

(** X4: a line that starts with a closing brace ends the block with the
    mapping accumulated so far when it is exactly [}] or [}.], and raises
    the expected-end-of-nested-mapping error for anything else after the
    brace. *)
Theorem closing_line (config : dict) (self : ConfigParser) (raw : string) :
  lines self !! current_line self = Some raw ->
  Py.startswith "}" (Py.strip raw) = true ->
  block_loop config self
    = if String.eqb (Py.strip raw) "}." || String.eqb (Py.strip raw) "}"
      then Ok (config, advance self)
      else Raise (ExpectedNestedEnd (current_line self + 1)).
Proof.
  intros Hraw Hclose. rewrite block_loop_unfold.
  unfold Methods.parse_block_step. rewrite Hraw. cbv zeta.
  rewrite Hclose. by apply startswith_cons in Hclose as [l ->].
Qed.

Lemma closing_line_witness :
  let self := {| constants := ∅; current_line := 1;
                 lines := ["k -> 1."; "  }; "] |} in
  lines self !! current_line self = Some "  }; " /\
  block_loop [("k", VInt 1)] self = Raise (ExpectedNestedEnd 2).
Proof.
  intros self. split; [reflexivity|].
  exact (closing_line [("k", VInt 1)] self "  }; " eq_refl eq_refl).
Defined.

Lemma ident_start_not (c d : ascii) :
  Re.ident_start c = true -> Re.ident_start d = false -> Ascii.eqb d c = false.
Proof.
  intros Hc Hd. destruct (Ascii.eqb_spec d c) as [->|]; [congruence | done].
Qed.

(** A line that matches one of the entry patterns starts with the first
    character of its key. *)
Lemma pattern_first_char r s caps :
  Re.rmatch (Re.Cat Re.identifier r) s = Some caps ->
  exists c s', s = String c s' /\ Re.ident_start c = true.
Proof.
  intros (w & rest & -> & Hm)%ReFacts.rmatch_sound.
  inversion Hm as [| | | | | | |? ? w1 w2 ? ? ? Hid _| |]; subst.
  inversion Hid as [| | | | | | | |? ? ? ? Hin|]; subst.
  inversion Hin as [| | | | | | |? ? a b ? ? ? Ha _| |]; subst.
  inversion Ha; subst. simpl. eauto.
Qed.

Lemma entry_line_dispatch line c s' :
  line = String c s' -> Re.ident_start c = true ->
  blank_or_comment line = false /\
  Py.startswith "{" line = false /\ Py.startswith "}" line = false.
Proof.
  intros -> Hc. unfold blank_or_comment. cbn [Py.is_empty Py.startswith].
  rewrite !(ident_start_not c) by done. done.
Qed.

(** X5: after an entry line of the form [key -> {] (whose key does not
    start with [def]) the loop binds the key to the nested mapping and
    goes on one line after the line at which the nested block returned:
    the line that follows the closing line of the nested block is passed
    over without being looked at. *)
Theorem nested_entry_resumes (config : dict) (self : ConfigParser)
    (raw : string) (groups : list string) :
  lines self !! current_line self = Some raw ->
  Re.rmatch Re.nested_pattern (Py.strip raw) = Some groups ->
  Py.startswith "def" (Py.strip raw) = false ->
  block_loop config self
    = bind (parse_block (advance self)) (fun '(nested_config, self1) =>
        block_loop
          (dict_set (nth 0 groups EmptyString) (VDict nested_config) config)
          (advance self1)).
Proof.
  intros Hraw Hg Hdef. rewrite block_loop_unfold at 1.
  unfold Methods.parse_block_step. rewrite Hraw. cbv zeta.
  destruct (pattern_first_char _ _ _ Hg) as (c & s' & Hs & Hc).
  destruct (entry_line_dispatch _ _ _ Hs Hc) as (-> & -> & ->). rewrite Hdef.
  unfold Methods.parse_entry.
  rewrite (ReFacts.nested_not_entry _ _ Hg), Hg.
  by destruct (parse_block (advance self)) as [[n s1]| | |].
Qed.

Lemma nested_entry_resumes_witness :
  let self := {| constants := ∅; current_line := 0;
                 lines := ["a -> {"; "}."; "b -> 2."; "c -> 3."] |} in
  lines self !! current_line self = Some "a -> {" /\
  block_loop [] self
    = Ok ([("a", VDict []); ("c", VInt 3)],
          {| constants := ∅; current_line := 4;
             lines := ["a -> {"; "}."; "b -> 2."; "c -> 3."] |}).
Proof.
  intros self. split; [reflexivity|].
  rewrite (nested_entry_resumes [] self "a -> {" ["a"] eq_refl eq_refl eq_refl).
  by vm_compute.
Defined.

(** ** Line feeds *)

Lemma no_nl_cons c s : no_nl (String c s) <-> Ascii.eqb Py.NL c = false /\ no_nl s.
Proof. unfold no_nl. cbn [Py.contains]. apply orb_false_iff. Qed.

Lemma no_nl_app a b : no_nl (a ++ b) <-> no_nl a /\ no_nl b.
Proof.
  induction a as [|c a IH]; simpl.
  - unfold no_nl at 2. simpl. tauto.
  - rewrite !no_nl_cons, IH. tauto.
Qed.

Lemma no_nl_lstrip s : no_nl s -> no_nl (Py.lstrip s).
Proof.
  induction s as [|c s IH]; simpl; [done|].
  intros H. destruct (Py.isspace c); [|done].
  apply IH. by apply no_nl_cons in H as [_ H].
Qed.

Lemma no_nl_rstrip s : no_nl s -> no_nl (Py.rstrip s).
Proof.
  induction s as [|c s IH]; simpl; [done|].
  intros [Hc Hs]%no_nl_cons. specialize (IH Hs).
  destruct (Py.rstrip s); [destruct (Py.isspace c)|]; try done;
    by apply no_nl_cons.
Qed.

Lemma no_nl_strip s : no_nl s -> no_nl (Py.strip s).
Proof. intros H. by apply no_nl_rstrip, no_nl_lstrip. Qed.

Lemma no_nl_drop n s : no_nl s -> no_nl (Py.drop n s).
Proof.
  revert s; induction n as [|n IH]; intros [|c s]; simpl; try done.
  intros [_ H]%no_nl_cons. by apply IH.
Qed.

Lemma no_nl_take n s : no_nl s -> no_nl (Py.take n s).
Proof.
  revert s; induction n as [|n IH]; intros [|c s]; simpl; try done.
  intros [Hc H]%no_nl_cons. apply no_nl_cons. split; [done | by apply IH].
Qed.

Lemma no_nl_slice a b s : no_nl s -> no_nl (Py.slice a b s).
Proof. intros H. by apply no_nl_take, no_nl_drop. Qed.

(** A text without line feeds is one line. *)
Lemma split_lines_single s : no_nl s -> Py.split_lines s = [s].
Proof.
  induction s as [|c s IH]; simpl; [done|].
  intros [Hc Hs]%no_nl_cons. rewrite Ascii.eqb_sym, Hc. by rewrite (IH Hs).
Qed.

(** No line of a text has a line feed. *)
Lemma split_lines_no_nl s : Forall no_nl (Py.split_lines s).
Proof.
  induction s as [|c s IH]; simpl; [by repeat constructor|].
  destruct (Ascii.eqb c Py.NL) eqn:E; [by constructor|].
  destruct (Py.split_lines s) as [|l ls].
  - repeat constructor. apply no_nl_cons. by rewrite Ascii.eqb_sym.
  - inversion IH; subst. constructor; [|done].
    apply no_nl_cons. by rewrite Ascii.eqb_sym.
Qed.

Lemma matches_no_nl r w rest cs :
  ReSpec.matches r w rest cs -> no_nl w -> Forall no_nl cs.
Proof.
  induction 1 as [| | | | | | |r1 r2 w1 w2 rest cs1 cs2 _ IH1 _ IH2
                 |r w rest cs _ IH|]; intros Hw; try by constructor.
  - auto.
  - apply no_nl_app in Hw as [H1 H2]. apply Forall_app; auto.
  - apply Forall_app; split; [auto | by constructor].
Qed.

Lemma rmatch_no_nl r s caps i :
  Re.rmatch r s = Some caps -> no_nl s -> no_nl (nth i caps EmptyString).
Proof.
  intros (w & rest & -> & Hm)%ReFacts.rmatch_sound [Hw _]%no_nl_app.
  pose proof (matches_no_nl _ _ _ _ Hm Hw) as H.
  destruct (nth_in_or_default i caps EmptyString) as [Hin | ->]; [|done].
  rewrite List.Forall_forall in H. by apply H.
Qed.

(** ** The line numbers of errors *)

Lemma bind_Raise {A B} (m : outcome A) (k : A -> outcome B) e :
  bind m k = Raise e -> m = Raise e \/ exists a, m = Ok a /\ k a = Raise e.
Proof.
  destruct m as [a|e'|x|]; simpl; intros H;
    [right; eauto | left; congruence | done | done].
Qed.

Section ErrorLines.

Variable pb : ConfigParser -> outcome (dict * ConfigParser).
Hypothesis Hpb : errors_in_range pb.
Hypothesis Hpost : post pb.

Lemma parse_value_error v s e :
  no_nl v -> current_line s < length (lines s) ->
  Methods.parse_value pb v s = Raise e -> in_range s e.
Proof.
  intros Hv Hs. unfold Methods.parse_value, Methods.parse_dict,
    Methods.parse_constant, Methods.parse_number, in_range.
  repeat case_match; try done; try (intros [= <-]; simpl; lia).
  intros [He | ([c n] & _ & ?)]%bind_Raise; [|done].
  apply Hpb in He.
  - unfold in_range in He. simpl in He.
    rewrite split_lines_single in He by by apply no_nl_strip, no_nl_slice.
    simpl in He. lia.
  - simpl. apply split_lines_no_nl.
Qed.

Lemma parse_constant_declaration_error line s e :
  no_nl line -> current_line s < length (lines s) ->
  Methods.parse_constant_declaration pb line s = Raise e -> in_range s e.
Proof.
  intros Hl Hs. unfold Methods.parse_constant_declaration.
  destruct (Re.rmatch Re.constant_pattern line) as [groups|] eqn:E.
  - intros [He | ([x s1] & _ & ?)]%bind_Raise; [|done].
    eapply parse_value_error; [|done|exact He].
    by apply no_nl_strip, (rmatch_no_nl _ _ _ 1 E).
  - intros [= <-]. unfold in_range. simpl. lia.
Qed.

Lemma parse_entry_error c line s e :
  no_nl line -> Forall no_nl (lines s) -> current_line s < length (lines s) ->
  Methods.parse_entry pb c line s = Raise e -> in_range s e.
Proof.
  intros Hl Hls Hs. unfold Methods.parse_entry.
  destruct (Re.rmatch Re.entry_pattern line) as [groups|] eqn:E.
  - intros [He | ([x s1] & _ & ?)]%bind_Raise; [|done].
    eapply parse_value_error; [|done|exact He].
    by apply no_nl_strip, (rmatch_no_nl _ _ _ 1 E).
  - destruct (Re.rmatch Re.nested_pattern line) as [groups|].
    + intros [He | ([x s1] & _ & ?)]%bind_Raise; [|done].
      by apply (Hpb (advance s)) in He.
    + intros [= <-]. unfold in_range. simpl. lia.
Qed.

Lemma parse_block_step_error loop c :
  (forall c, errors_in_range (loop c)) ->
  errors_in_range (Methods.parse_block_step pb loop c).
Proof.
  intros Hloop s e Hls. unfold Methods.parse_block_step.
  destruct (lines s !! current_line s) as [raw|] eqn:E; [|done].
  pose proof (lookup_lt_Some _ _ _ E) as Hs.
  assert (no_nl (Py.strip raw)) as Hraw.
  { apply no_nl_strip. rewrite Forall_lookup in Hls. by eapply Hls. }
  cbv zeta. repeat case_match; try done.
  - intros He. by apply (Hloop c (advance s)) in He.
  - intros [He | (s1 & Hd & He)]%bind_Raise.
    + by eapply parse_constant_declaration_error.
    + apply parse_constant_declaration_grows in Hd as (Hl1 & _ & _).
      apply Hloop in He; [|by rewrite Hl1].
      unfold in_range in *. by rewrite Hl1 in He.
  - intros He. by apply (Hpb (advance s)) in He.
  - intros [= <-]. unfold in_range. simpl. lia.
  - intros [He | ([c1 s1] & Hd & He)]%bind_Raise.
    + by eapply parse_entry_error.
    + apply parse_entry_grows in Hd as (Hl1 & _ & _); [|done].
      apply (Hloop c1 (advance s1)) in He; [|simpl; by rewrite Hl1].
      unfold in_range in *. simpl in He. by rewrite Hl1 in He.
Qed.

End ErrorLines.

Lemma parse_block_loop_error fuel :
  forall c, errors_in_range (parse_block_loop fuel c).
Proof.
  induction fuel as [|fuel IH]; intros c; [done|].
  cbn [parse_block_loop]. apply parse_block_step_error; auto.
  apply parse_block_loop_grows.
Qed.

Lemma parse_block_error : errors_in_range parse_block.
Proof. intros s. apply parse_block_loop_error. Qed.

Lemma parse_trailing_error fuel : forall config s e,
  parse_trailing fuel config s = Raise e -> in_range s e.
Proof.
  induction fuel as [|fuel IH]; intros config s e; [done|].
  cbn [parse_trailing].
  destruct (lines s !! current_line s) as [raw|] eqn:E; [|done].
  pose proof (lookup_lt_Some _ _ _ E). cbv zeta.
  destruct (blank_or_comment (Py.strip raw)).
  - intros He%IH. exact He.
  - intros [= <-]. unfold in_range. simpl. lia.
Qed.

Lemma parse_loop_error fuel : forall s e,
  Forall no_nl (lines s) -> parse_loop fuel s = Raise e -> in_range s e.
Proof.
  induction fuel as [|fuel IH]; intros s e Hls; [done|].
  cbn [parse_loop].
  destruct (lines s !! current_line s) as [raw|] eqn:E; [|done].
  pose proof (lookup_lt_Some _ _ _ E) as Hs.
  assert (no_nl (Py.strip raw)) as Hraw.
  { apply no_nl_strip. rewrite Forall_lookup in Hls. by eapply Hls. }
  cbv zeta. repeat case_match.
  - intros He. by apply (IH (advance s)) in He.
  - intros [He | (s1 & Hd & He)]%bind_Raise.
    + eapply parse_constant_declaration_error;
        [apply parse_block_error | done | done | exact He].
    + apply parse_constant_declaration_grows in Hd as (Hl1 & _ & _).
      apply IH in He; [|by rewrite Hl1].
      unfold in_range in *. by rewrite Hl1 in He.
  - intros [He | ([config s1] & Hb & He)]%bind_Raise.
    + by apply (parse_block_error (advance s)) in He.
    + apply parse_block_grows in Hb as (Hl1 & _ & _).
      apply parse_trailing_error in He.
      unfold in_range in *. simpl in Hl1. by rewrite Hl1 in He.
  - intros [= <-]. unfold in_range. simpl. lia.
Qed.

(** X6: the line number of every error that [parse] raises lies between
    one and the number of lines of the text. *)
Theorem parse_error_line (text : string) (self : ConfigParser)
    (e : ParseError) :
  parse text self = Raise e ->
  1 <= error_line e <= length (Py.split_lines text).
Proof.
  unfold parse. intros He%parse_loop_error; [exact He|].
  apply split_lines_no_nl.
Qed.

Lemma parse_error_line_witness :
  let text := Py.join_lines ["{"; "a -> 1."; "b -> { c -> x. }."; "}"] in
  parse text ConfigParser_init = Raise (InvalidNumberFormat "x" 1) /\
  1 <= 1 <= length (Py.split_lines text).
Proof.
  intros text.
  assert (parse text ConfigParser_init = Raise (InvalidNumberFormat "x" 1))
    as H by (by vm_compute).
  split; [exact H|]. exact (parse_error_line text ConfigParser_init _ H).
Defined.

(** ** Inline mappings *)

Lemma parse_value_inline value self :
  Py.startswith "{" value = true -> Py.endswith "}" value = true ->
  parse_value value self
    = bind (parse_block
              {| constants := constants self; current_line := 0;
                 lines := Py.split_lines (Py.strip (Py.slice 1 1 value)) |})
        (fun '(config, _) => Ok (VDict config, self)).
Proof.
  intros Hopen Hclose.
  unfold parse_value, Methods.parse_value, Methods.parse_dict.
  rewrite Hopen, Hclose. by apply startswith_cons in Hopen as [v ->].
Qed.

Lemma length_dict_set key v d : length (dict_set key v d) <= length d + 1.
Proof.
  induction d as [|[k w] d IH]; simpl; [lia|].
  destruct (String.eqb key k); simpl; lia.
Qed.

Lemma parse_entry_config pb c line s c1 s1 :
  Methods.parse_entry pb c line s = Ok (c1, s1) ->
  exists key v, c1 = dict_set key v c.
Proof.
  unfold Methods.parse_entry.
  destruct (Re.rmatch Re.entry_pattern line) as [groups|];
    [|destruct (Re.rmatch Re.nested_pattern line) as [groups|]; [|done]].
  - intros ([x s'] & _ & [= <- _])%bind_Ok. eauto.
  - intros ([x s'] & _ & [= <- _])%bind_Ok. eauto.
Qed.

(** A block read from the last line of a parser adds at most one entry. *)
Lemma last_line_block config s d s' :
  length (lines s) <= current_line s + 1 ->
  block_loop config s = Ok (d, s') ->
  length d <= length config + 1.
Proof.
  intros Hs. rewrite block_loop_unfold. unfold Methods.parse_block_step.
  assert (forall c s1, grows (advance s) s1 -> block_loop c s1 = Ok (c, s1)) as Hend.
  { intros c s1 (Hl & Hc & _). apply block_loop_past_end.
    simpl in *. rewrite Hl. lia. }
  destruct (lines s !! current_line s) as [raw|];
    [|intros [= <- _]; lia].
  cbv zeta. repeat case_match; try done.
  - rewrite Hend by apply grows_refl. intros [= <- _]. lia.
  - intros (s1 & Hd & He)%bind_Ok.
    apply parse_constant_declaration_inv in Hd as (g & x & _ & _ & ->).
    rewrite Hend in He. { injection He as <- _. lia. }
    repeat split; simpl; [lia|]. intros name Hn.
    rewrite lookup_insert. by case_decide.
  - unfold parse_block. rewrite Hend by apply grows_refl.
    intros [= <- _]. simpl. lia.
  - intros [= <- _]. lia.
  - intros ([c1 s1] & Hd & He)%bind_Ok.
    pose proof (parse_entry_config _ _ _ _ _ _ Hd) as (key & v & ->).
    apply parse_entry_grows in Hd as (Hl & Hc & Hn); [|apply parse_block_grows].
    rewrite Hend in He. { injection He as <- _. apply length_dict_set. }
    repeat split; simpl; [done | lia | done].
Qed.

(** X7: an inline mapping written on one line (a token cut from a line
    has no line feed) has at most one entry. *)
Theorem inline_mapping_one_entry (value : string) (self : ConfigParser)
    (x : Value) (self' : ConfigParser) :
  no_nl value ->
  Py.startswith "{" value = true ->
  Py.endswith "}" value = true ->
  parse_value value self = Ok (x, self') ->
  exists d, x = VDict d /\ length d <= 1.
Proof.
  intros Hv Hopen Hclose. rewrite parse_value_inline by done.
  intros ([d s1] & Hb & [= <- _])%bind_Ok. exists d. split; [done|].
  eapply (last_line_block []); [|exact Hb].
  simpl. rewrite split_lines_single by by apply no_nl_strip, no_nl_slice.
  simpl. lia.
Qed.

Lemma inline_mapping_one_entry_witness :
  let value := "{ a -> { b -> 1. }. }" in
  parse_value value ConfigParser_init
    = Ok (VDict [("a", VDict [("b", VInt 1)])], ConfigParser_init) /\
  exists d, VDict [("a", VDict [("b", VInt 1)])] = VDict d /\ length d <= 1.
Proof.
  intros value.
  assert (parse_value value ConfigParser_init
    = Ok (VDict [("a", VDict [("b", VInt 1)])], ConfigParser_init)) as H
    by (by vm_compute).
  split; [exact H|].
  exact (inline_mapping_one_entry value ConfigParser_init _ _
           eq_refl eq_refl eq_refl H).
Defined.

(** X8: an error raised inside an inline mapping written on one line
    carries the line number one, wherever the line of the mapping is in
    the text. *)
Theorem inline_mapping_error_line (value : string) (self : ConfigParser)
    (e : ParseError) :
  no_nl value ->
  Py.startswith "{" value = true ->
  Py.endswith "}" value = true ->
  parse_value value self = Raise e ->
  error_line e = 1.
Proof.
  intros Hv Hopen Hclose. rewrite parse_value_inline by done.
  intros [He | ([d s1] & _ & ?)]%bind_Raise; [|done].
  apply parse_block_error in He; [|apply split_lines_no_nl].
  unfold in_range in He. simpl in He.
  rewrite split_lines_single in He by by apply no_nl_strip, no_nl_slice.
  simpl in He. lia.
Qed.

Lemma inline_mapping_error_line_witness :
  let self := {| constants := ∅; current_line := 41;
                 lines := replicate 42 "k -> { a -> |X|. }." |} in
  parse_value "{ a -> |X|. }" self = Raise (UndefinedConstant "X" 1) /\
  error_line (UndefinedConstant "X" 1) = 1.
Proof.
  intros self.
  assert (parse_value "{ a -> |X|. }" self = Raise (UndefinedConstant "X" 1))
    as H by (by vm_compute).
  split; [exact H|].
  exact (inline_mapping_error_line "{ a -> |X|. }" self _
           eq_refl eq_refl eq_refl H).
Defined.

(** ** The keys of the mappings *)

Lemma dict_get_set_eq key v d : dict_get key (dict_set key v d) = Some v.
Proof.
  induction d as [|[k w] d IH]; simpl; [by rewrite String.eqb_refl|].
  destruct (String.eqb key k) eqn:E; simpl; by rewrite E.
Qed.

Lemma dict_get_set_ne key k v d :
  k <> key -> dict_get k (dict_set key v d) = dict_get k d.
Proof.
  intros Hne. induction d as [|[k' w] d IH]; simpl.
  - by apply String.eqb_neq in Hne as ->.
  - destruct (String.eqb key k') eqn:E; simpl; [|by rewrite IH].
    apply String.eqb_eq in E as <-. by apply String.eqb_neq in Hne as ->.
Qed.

(** Assigning to a key that is present keeps the order of the keys, and
    a new key goes to the end. *)
Lemma dict_keys_set key v d :
  dict_keys (dict_set key v d)
    = if decide (key ∈ dict_keys d) then dict_keys d
      else (dict_keys d ++ [key])%list.
Proof.
  induction d as [|[k w] d IH]; simpl.
  - destruct (decide (key ∈ [])) as [H|H]; [by apply elem_of_nil in H | done].
  - destruct (String.eqb_spec key k) as [->|Hne]; simpl.
    + rewrite decide_True; [done | by left].
    + fold (dict_keys d) in *. fold (dict_keys (dict_set key v d)). rewrite IH.
      destruct (decide (key ∈ dict_keys d)) as [Hin|Hin].
      * rewrite decide_True; [done | by right].
      * rewrite decide_False; [done|].
        intros [?|?]%elem_of_cons; done.
Qed.

Lemma wf_dict_set key v d :
  wf_value (VDict d) -> is_identifier key = true -> wf_value v ->
  wf_value (VDict (dict_set key v d)).
Proof.
  intros Hwf. inversion Hwf as [| | |? Hnd Hall]; subst. clear Hwf.
  intros Hk Hv. constructor.
  - rewrite dict_keys_set.
    destruct (decide (key ∈ dict_keys d)) as [Hin|Hin]; [done|].
    apply NoDup_app. split; [done|]. split; [|apply NoDup_singleton].
    intros x Hx ->%list_elem_of_singleton. done.
  - clear Hnd. induction Hall as [|[k w] d [Hkw Hw] Hall IH]; simpl.
    + by repeat constructor.
    + destruct (String.eqb key k); constructor; auto.
Qed.

(** The first group of the entry patterns and of the constant pattern
    is an identifier. *)
Lemma identifier_group w rest cs :
  ReSpec.matches Re.identifier w rest cs ->
  cs = [w] /\ is_identifier w = true.
Proof.
  inversion 1 as [| | | | | | | |? ? ? ? Hin|]; subst.
  inversion Hin as [| | | | | | |? ? a b ? ? ? Ha Hb| |]; subst.
  inversion Ha; subst. apply ReFacts.matches_star_inv in Hb as [-> Hb].
  simpl. split; [done|]. by apply andb_true_iff.
Qed.

Lemma entry_key_identifier r s caps :
  Re.rmatch (Re.Cat Re.identifier r) s = Some caps ->
  is_identifier (nth 0 caps EmptyString) = true.
Proof.
  intros (w & rest & -> & Hm)%ReFacts.rmatch_sound.
  inversion Hm as [| | | | | | |? ? w1 w2 ? ? ? Hid _| |]; subst.
  by apply identifier_group in Hid as [-> Hid].
Qed.

Lemma wf_constants_advance s : wf_constants s -> wf_constants (advance s).
Proof. done. Qed.

Section WellFormed.

Variable pb : ConfigParser -> outcome (dict * ConfigParser).
Hypothesis Hpb : keeps_wf pb.

Lemma parse_value_wf v s x s' :
  wf_constants s -> Methods.parse_value pb v s = Ok (x, s') -> wf_value x.
Proof.
  intros Hs. unfold Methods.parse_value, Methods.parse_dict,
    Methods.parse_constant, Methods.parse_number.
  repeat case_match; try done; try (intros [= <- _]; by constructor).
  - intros ([d n] & Hb & [= <- _])%bind_Ok. apply Hpb in Hb as [Hd _]; [done|].
    intros name w. simpl. apply Hs.
  - intros [= <- _]. by eapply Hs.
Qed.

Lemma parse_constant_declaration_wf line s s1 :
  wf_constants s -> Methods.parse_constant_declaration pb line s = Ok s1 ->
  wf_constants s1.
Proof.
  intros Hs (groups & x & _ & Hv & ->)%parse_constant_declaration_inv.
  apply parse_value_wf in Hv; [|done].
  intros name w. simpl. rewrite lookup_insert.
  case_decide; [by intros [= <-] | apply Hs].
Qed.

Lemma parse_entry_wf c line s c1 s1 :
  wf_value (VDict c) -> wf_constants s ->
  Methods.parse_entry pb c line s = Ok (c1, s1) ->
  wf_value (VDict c1) /\ wf_constants s1.
Proof.
  intros Hc Hs. unfold Methods.parse_entry.
  destruct (Re.rmatch Re.entry_pattern line) as [groups|] eqn:E;
    [|destruct (Re.rmatch Re.nested_pattern line) as [groups|] eqn:E';
      [|done]].
  - intros ([x s'] & Hv & [= <- <-])%bind_Ok.
    pose proof (parse_value_self _ _ _ _ _ Hv) as ->.
    apply parse_value_wf in Hv; [|done]. split; [|done].
    apply wf_dict_set; [done | by eapply entry_key_identifier | done].
  - intros ([x s'] & Hb & [= <- <-])%bind_Ok.
    apply Hpb in Hb as [Hx Hs']; [|done]. split; [|done].
    apply wf_dict_set; [done | by eapply entry_key_identifier | done].
Qed.

Lemma parse_block_step_wf loop c s d s' :
  (forall c s d s', wf_value (VDict c) -> wf_constants s ->
     loop c s = Ok (d, s') -> wf_value (VDict d) /\ wf_constants s') ->
  wf_value (VDict c) -> wf_constants s ->
  Methods.parse_block_step pb loop c s = Ok (d, s') ->
  wf_value (VDict d) /\ wf_constants s'.
Proof.
  intros Hloop Hc Hs. unfold Methods.parse_block_step.
  destruct (lines s !! current_line s) as [raw|];
    [|by intros [= <- <-]].
  cbv zeta. repeat case_match; try done.
  - by apply Hloop.
  - intros (s1 & Hd%parse_constant_declaration_wf & He)%bind_Ok; [|done].
    by eapply Hloop.
  - by apply Hpb.
  - by intros [= <- <-].
  - intros ([c1 s1] & [Hc1 Hs1]%parse_entry_wf & He)%bind_Ok; [|done|done].
    exact (Hloop c1 (advance s1) d s' Hc1 (wf_constants_advance _ Hs1) He).
Qed.

End WellFormed.

Lemma parse_block_loop_wf fuel : forall c s d s',
  wf_value (VDict c) -> wf_constants s ->
  parse_block_loop fuel c s = Ok (d, s') ->
  wf_value (VDict d) /\ wf_constants s'.
Proof.
  induction fuel as [|fuel IH]; intros c s d s' Hc Hs; [done|].
  cbn [parse_block_loop]. apply parse_block_step_wf; [|done..].
  intros s0 d0 s0' Hs0. apply IH; [|done]. by repeat constructor.
Qed.

Lemma wf_empty_dict : wf_value (VDict []).
Proof. by repeat constructor. Qed.

Lemma parse_block_wf : keeps_wf parse_block.
Proof. intros s d s' Hs. apply parse_block_loop_wf; [apply wf_empty_dict | done]. Qed.

Lemma parse_trailing_constants fuel : forall config s d s',
  parse_trailing fuel config s = Ok (d, s') ->
  d = config /\ constants s' = constants s.
Proof.
  induction fuel as [|fuel IH]; intros config s d s'; [done|].
  cbn [parse_trailing]. destruct (lines s !! current_line s);
    [|by intros [= <- <-]].
  cbv zeta. destruct (blank_or_comment _); [|done]. by intros [-> ->]%IH.
Qed.

Lemma parse_loop_wf fuel : forall s d s',
  wf_constants s -> parse_loop fuel s = Ok (d, s') ->
  wf_value (VDict d) /\ wf_constants s'.
Proof.
  induction fuel as [|fuel IH]; intros s d s' Hs; [done|].
  cbn [parse_loop].
  destruct (lines s !! current_line s) as [raw|];
    [|intros [= <- <-]; split; [apply wf_empty_dict | done]].
  cbv zeta. repeat case_match; try done.
  - by apply IH.
  - intros (s1 & Hd & He)%bind_Ok.
    apply (parse_constant_declaration_wf _ parse_block_wf) in Hd; [|done].
    by eapply IH.
  - intros ([config s1] & [Hc Hs1]%parse_block_wf & He)%bind_Ok; [|done].
    apply parse_trailing_constants in He as [-> Hk]. split; [done|].
    unfold wf_constants. by rewrite Hk.
Qed.

(** X9: when the values in the constant table are well formed, the
    mapping that [parse] returns is well formed, at every depth its
    keys are identifiers and no key occurs twice in one mapping, and so
    are the values of the table afterwards. *)
Theorem parse_unique_keys (text : string) (self : ConfigParser)
    (config : dict) (self' : ConfigParser) :
  wf_constants self ->
  parse text self = Ok (config, self') ->
  wf_value (VDict config) /\ wf_constants self'.
Proof.
  intros Hs Hparse. unfold parse in Hparse.
  eapply parse_loop_wf; [|exact Hparse].
  intros name v. simpl. apply Hs.
Qed.

Lemma parse_unique_keys_witness :
  let text := Py.join_lines ["{"; "a -> 1."; "b -> [[x]]."; "a -> 3."; "}"] in
  let self' := {| constants := ∅; current_line := 5;
                  lines := Py.split_lines text |} in
  wf_constants ConfigParser_init /\
  parse text ConfigParser_init = Ok ([("a", VInt 3); ("b", VText "x")], self') /\
  wf_value (VDict [("a", VInt 3); ("b", VText "x")]).
Proof.
  intros text self'.
  assert (wf_constants ConfigParser_init) as H0 by (by intros name v).
  assert (parse text ConfigParser_init
            = Ok ([("a", VInt 3); ("b", VText "x")], self')) as H
    by (by vm_compute).
  split; [exact H0|]. split; [exact H|].
  exact (proj1 (parse_unique_keys text ConfigParser_init _ self' H0 H)).
Defined.

(** X10: an entry line [key -> value.] binds the key to the value just
    parsed and leaves the values of the other keys; a key that was
    present keeps its place among the keys, a new key goes to the end. *)
Theorem entry_binds_key (config : dict) (line : string) (self : ConfigParser)
    (groups : list string) (config' : dict) (self' : ConfigParser) :
  Re.rmatch Re.entry_pattern line = Some groups ->
  parse_entry config line self = Ok (config', self') ->
  let key := nth 0 groups EmptyString in
  exists v,
    parse_value (Py.strip (nth 1 groups EmptyString)) self = Ok (v, self) /\
    dict_get key config' = Some v /\
    (forall k, k <> key -> dict_get k config' = dict_get k config) /\
    dict_keys config'
      = if decide (key ∈ dict_keys config) then dict_keys config
        else (dict_keys config ++ [key])%list.
Proof.
  intros Hg. unfold parse_entry, Methods.parse_entry. rewrite Hg.
  intros ([v s1] & Hv & [= <- <-])%bind_Ok. cbv zeta.
  pose proof (parse_value_self _ _ _ _ _ Hv) as ->.
  exists v. split; [exact Hv|]. split; [apply dict_get_set_eq|].
  split; [intros k Hk; by apply dict_get_set_ne | apply dict_keys_set].
Qed.

Lemma entry_binds_key_witness :
  let config := [("a", VInt 1); ("b", VInt 2)] in
  exists config',
    parse_entry config "a -> [[new]]." ConfigParser_init
      = Ok (config', ConfigParser_init) /\
    dict_get "a" config' = Some (VText "new") /\
    dict_get "b" config' = Some (VInt 2) /\
    dict_keys config' = ["a"; "b"].
Proof.
  intros config. exists [("a", VText "new"); ("b", VInt 2)].
  assert (parse_entry config "a -> [[new]]." ConfigParser_init
    = Ok ([("a", VText "new"); ("b", VInt 2)], ConfigParser_init)) as H
    by (by vm_compute).
  destruct (entry_binds_key config "a -> [[new]]." ConfigParser_init
              ["a"; "[[new]]"] _ _ eq_refl H) as (v & Hv & Ha & Hb & Hk).
  split; [exact H|]. split; [|split; [|exact Hk]].
  - vm_compute in Hv. injection Hv as <-. exact Ha.
  - exact (Hb "b" ltac:(done)).
Defined.

(** ** Integer literals *)

Lemma string_of_uint_digits u :
  ReSpec.all Py.isdigit (NilEmpty.string_of_uint u) = true.
Proof. induction u; simpl; done. Qed.

Lemma digits_value_of_uint u : forall acc,
  Py.digits_value (Z.of_nat acc) (NilEmpty.string_of_uint u)
    = Z.of_nat (Nat.of_uint_acc u acc).
Proof.
  induction u as [|u IH|u IH|u IH|u IH|u IH|u IH|u IH|u IH|u IH|u IH];
    intros acc; [done|..];
    cbn [NilEmpty.string_of_uint Py.digits_value Nat.of_uint_acc];
    rewrite <- IH; f_equal; rewrite Nat.tail_mul_spec;
    change (Py.isdigit _) with true; cbv iota;
    unfold Py.digit_value; simpl nat_of_ascii; simpl Nat.sub; lia.
Qed.

Lemma to_uint_digits n :
  exists c s, NilEmpty.string_of_uint (Nat.to_uint n) = String c s /\
    Py.isdigit c = true.
Proof.
  pose proof (string_of_uint_digits (Nat.to_uint n)) as Hd.
  pose proof (Unsigned.of_to n) as Hn.
  destruct (Nat.to_uint n) as [|u|u|u|u|u|u|u|u|u|u] eqn:E; simpl; eauto.
  simpl in Hn. subst n. by vm_compute in E.
Qed.

Lemma digit_not (d c : ascii) :
  Py.isdigit c = true -> Py.isdigit d = false -> Ascii.eqb d c = false.
Proof.
  intros Hc Hd. destruct (Ascii.eqb_spec d c) as [->|]; [congruence | done].
Qed.

Lemma all_digits_no_dot s :
  ReSpec.all Py.isdigit s = true -> Py.contains "." s = false.
Proof.
  induction s as [|c s IH]; [done|]. cbn [Py.contains ReSpec.all].
  intros [Hc Hs]%andb_true_iff. by rewrite (IH Hs), (digit_not _ c).
Qed.

(** A string with the number syntax matches the number pattern. *)
Lemma number_token_matches sign whole :
  sign = EmptyString \/ sign = "-" ->
  ReSpec.digits whole = true ->
  is_Some (Re.rmatch Re.number_pattern (sign ++ whole)).
Proof.
  intros Hsign Hwhole.
  rewrite <- (app_empty_r (sign ++ whole)).
  eapply ReFacts.rmatch_complete with (cs := []).
  unfold Re.number_pattern. apply ReFacts.M_Cat_nil.
  - destruct Hsign as [-> | ->]; [apply ReSpec.M_Opt_none|].
    apply ReSpec.M_Opt_some, ReSpec.M_Chr.
  - rewrite <- (app_empty_r whole).
    apply ReFacts.M_Cat_nil; [by apply ReFacts.matches_plus_intro|].
    apply (ReFacts.M_Cat_nil _ _ EmptyString EmptyString);
      [apply ReSpec.M_Opt_none | apply ReSpec.M_Eos; by left].
Qed.

Lemma int_token_cases z :
  exists c s,
    NilEmpty.string_of_uint (Nat.to_uint (Z.abs_nat z)) = String c s /\
    Py.isdigit c = true /\
    ReSpec.digits (String c s) = true /\
    Py.digits_value 0 (String c s) = Z.abs z /\
    int_token z = if (z <? 0)%Z then String "-" (String c s) else String c s.
Proof.
  destruct (to_uint_digits (Z.abs_nat z)) as (c & s & Hu & Hc).
  exists c, s. unfold int_token. rewrite Hu.
  pose proof (string_of_uint_digits (Nat.to_uint (Z.abs_nat z))) as Hall.
  pose proof (digits_value_of_uint (Nat.to_uint (Z.abs_nat z)) 0) as Hval.
  change (Nat.of_uint_acc ?u 0) with (Nat.of_uint u) in Hval.
  rewrite Unsigned.of_to, Nat2Z.inj_abs_nat, Hu in Hval. rewrite Hu in Hall.
  repeat split; try done. by destruct (z <? 0)%Z.
Qed.

Lemma number_first_char c s :
  Py.isdigit c = true \/ c = "-"%char ->
  Py.startswith "[[" (String c s) = false /\
  Py.startswith "{" (String c s) = false /\
  Py.startswith "|" (String c s) = false.
Proof.
  intros [Hc | ->]; [|done]. cbn [Py.startswith].
  by rewrite !(digit_not _ c).
Qed.

Lemma count_digits_all s :
  ReSpec.all Py.isdigit s = true -> Py.count_digits s = String.length s.
Proof.
  induction s as [|c s IH]; [done|]. cbn [ReSpec.all Py.count_digits String.length].
  intros [-> Hs]%andb_true_iff. by rewrite (IH Hs).
Qed.

(** A digit string, with or without a minus sign, is an integer
    literal when it is within the limit of [int]. *)
Lemma parse_digits (neg : bool) c s self :
  ReSpec.digits (String c s) = true ->
  parse_value ((if neg then "-" else EmptyString) ++ String c s) self
    = if Py.count_digits (String c s) <=? Py.int_max_str_digits then
        Ok (VInt (if neg then - Py.digits_value 0 (String c s)
                  else Py.digits_value 0 (String c s)), self)
      else Uncaught ValueError.
Proof.
  intros Hdig.
  assert (ReSpec.all Py.isdigit (String c s) = true) as Hall
    by (by apply andb_true_iff in Hdig as [_ ?]).
  pose proof Hall as [Hc _]%andb_true_iff.
  pose proof (all_digits_no_dot _ Hall) as Hdot.
  unfold parse_value, Methods.parse_value, Methods.parse_number.
  destruct neg.
  - change ("-" ++ String c s) with (String "-" (String c s)).
    destruct (number_first_char "-" (String c s) (or_intror eq_refl))
      as (-> & -> & ->).
    destruct (number_token_matches "-" _ (or_intror eq_refl) Hdig) as [g Hg].
    change ("-" ++ String c s) with (String "-" (String c s)) in Hg.
    rewrite Hg. cbn [andb].
    change (Py.contains "." (String "-" (String c s)))
      with (Ascii.eqb "." "-" || Py.contains "." (String c s)).
    rewrite Hdot. change (Ascii.eqb "." "-") with false. cbn [orb].
    unfold Py.int, Py.negative.
    change (Py.digits_value 0 (String "-" (String c s)))
      with (Py.digits_value 0 (String c s)).
    change (Py.count_digits (String "-" (String c s)))
      with (Py.count_digits (String c s)).
    rewrite Nat.ltb_antisym.
    destruct (Py.count_digits (String c s) <=? Py.int_max_str_digits); [|done].
    cbn [negb Py.startswith]. by rewrite Ascii.eqb_refl.
  - change (EmptyString ++ String c s) with (String c s).
    destruct (number_first_char c s (or_introl Hc)) as (-> & -> & ->).
    destruct (number_token_matches EmptyString _ (or_introl eq_refl) Hdig)
      as [g Hg].
    change (EmptyString ++ String c s) with (String c s) in Hg.
    rewrite Hg. cbn [andb]. rewrite Hdot.
    unfold Py.int, Py.negative. rewrite Nat.ltb_antisym.
    destruct (Py.count_digits (String c s) <=? Py.int_max_str_digits); [|done].
    cbn [negb Py.startswith]. by rewrite (digit_not _ c).
Qed.

Lemma count_digits_int_token z :
  Py.count_digits (int_token z)
    = String.length (NilEmpty.string_of_uint (Nat.to_uint (Z.abs_nat z))).
Proof.
  unfold int_token.
  rewrite <- (count_digits_all _ (string_of_uint_digits _)).
  by destruct (z <? 0)%Z.
Qed.

Lemma parse_int_token (z : Z) (self : ConfigParser) :
  parse_value (int_token z) self
    = if Py.count_digits (int_token z) <=? Py.int_max_str_digits then
        Ok (VInt z, self)
      else Uncaught ValueError.
Proof.
  assert (forall c s,
    NilEmpty.string_of_uint (Nat.to_uint (Z.abs_nat z)) = String c s ->
    Py.count_digits (int_token z) = Py.count_digits (String c s)) as Hcount.
  { intros c s Hu. unfold int_token. rewrite Hu. by destruct (z <? 0)%Z. }
  destruct (int_token_cases z) as (c & s & Hu & _ & Hdig & Hval & Ht).
  rewrite (Hcount c s Hu), Ht.
  pose proof (parse_digits (z <? 0)%Z c s self Hdig) as H.
  rewrite Hval in H.
  destruct (z <? 0)%Z eqn:Hz; cbn [String.append] in H; rewrite H;
    destruct (_ <=? _); try done; do 3 f_equal.
  - apply Z.ltb_lt in Hz. lia.
  - apply Z.ltb_ge in Hz. lia.
Qed.

Lemma digit_value_range c :
  Py.isdigit c = true -> (0 <= Py.digit_value c <= 9)%Z.
Proof.
  unfold Py.isdigit, Py.digit_value.
  intros [H1%Nat.leb_le H2%Nat.leb_le]%andb_true_iff. lia.
Qed.

(** The value of a digit string lies between the powers of ten that its
    length gives. *)
Lemma digits_value_bounds s : forall acc,
  (0 <= acc)%Z -> ReSpec.all Py.isdigit s = true ->
  (acc * 10 ^ Z.of_nat (String.length s) <= Py.digits_value acc s
     < (acc + 1) * 10 ^ Z.of_nat (String.length s))%Z.
Proof.
  induction s as [|c s IH]; intros acc Hacc Hall.
  - cbn [String.length Py.digits_value].
    change (10 ^ Z.of_nat 0)%Z with 1%Z. lia.
  - cbn [ReSpec.all] in Hall. apply andb_true_iff in Hall as [Hc Hs].
    cbn [String.length Py.digits_value]. rewrite Hc.
    pose proof (digit_value_range c Hc) as Hd.
    rewrite Nat2Z.inj_succ, Z.pow_succ_r by lia.
    assert (0 <= 10 * acc + Py.digit_value c)%Z as Hacc' by lia.
    specialize (IH _ Hacc' Hs).
    assert (0 < 10 ^ Z.of_nat (String.length s))%Z
      by (apply Z.pow_pos_nonneg; lia).
    nia.
Qed.

Lemma nzhead_head d :
  match Decimal.nzhead d with Decimal.D0 _ => False | _ => True end.
Proof. induction d; simpl; done. Qed.

(** The decimal text of a positive number does not start with a zero. *)
Lemma to_uint_leading n :
  n <> 0 ->
  exists c s, NilEmpty.string_of_uint (Nat.to_uint n) = String c s /\
    (1 <= Py.digit_value c)%Z.
Proof.
  intros Hn. pose proof (Unsigned.to_of (Nat.to_uint n)) as H.
  rewrite Unsigned.of_to in H.
  pose proof (nzhead_head (Nat.to_uint n)) as Hh. unfold Decimal.unorm in H.
  destruct (Decimal.nzhead (Nat.to_uint n)) eqn:E; [|done|..];
    try (rewrite H; cbn [NilEmpty.string_of_uint];
         do 2 eexists; split; [reflexivity | by vm_compute]).
  exfalso. apply Hn. rewrite <- (Unsigned.of_to n), H. reflexivity.
Qed.

(** An integer below the [k]-th power of ten has at most [k] digits. *)
Lemma int_token_short z k :
  0 < k -> (Z.abs z < 10 ^ Z.of_nat k)%Z -> Py.count_digits (int_token z) <= k.
Proof.
  intros Hk Hz. rewrite count_digits_int_token.
  destruct (Nat.eq_dec (Z.abs_nat z) 0) as [H0 | H0].
  { rewrite H0. cbn. lia. }
  destruct (to_uint_leading _ H0) as (c & s & Hu & Hlead).
  destruct (int_token_cases z) as (c' & s' & Hu' & Hc & Hdig & Hval & _).
  rewrite Hu in Hu'. injection Hu' as <- <-. rewrite Hu.
  apply andb_true_iff in Hdig as [_ Hall].
  cbn [ReSpec.all] in Hall. apply andb_true_iff in Hall as [_ Hs].
  cbn [Py.digits_value] in Hval. rewrite Hc in Hval.
  pose proof (digits_value_bounds s (10 * 0 + Py.digit_value c) ltac:(lia) Hs)
    as [Hlow _].
  rewrite Hval in Hlow. cbn [String.length].
  destruct (Nat.le_gt_cases (S (String.length s)) k) as [|Hgt]; [done|].
  exfalso.
  assert (10 ^ Z.of_nat k <= 10 ^ Z.of_nat (String.length s))%Z
    by (apply Z.pow_le_mono_r; lia).
  nia.
Qed.

(** An integer of at most [k] digits is below the [k]-th power of ten. *)
Lemma int_token_long z k :
  (10 ^ Z.of_nat k <= Z.abs z)%Z -> k < Py.count_digits (int_token z).
Proof.
  intros Hz. rewrite count_digits_int_token.
  destruct (int_token_cases z) as (c & s & Hu & _ & Hdig & Hval & _).
  rewrite Hu. apply andb_true_iff in Hdig as [_ Hall].
  pose proof (digits_value_bounds (String c s) 0 ltac:(lia) Hall) as [_ Hup].
  rewrite Hval in Hup.
  destruct (Nat.le_gt_cases (String.length (String c s)) k) as [Hle|]; [|done].
  exfalso.
  assert (10 ^ Z.of_nat (String.length (String c s)) <= 10 ^ Z.of_nat k)%Z
    by (apply Z.pow_le_mono_r; lia).
  lia.
Qed.

(** X11: the decimal text of an integer, with a minus sign when it is
    negative, parses to that integer when its absolute value is below
    the 4300-th power of ten, that is, when the text has at most 4300
    digits; the text of any other integer makes [int] raise
    [ValueError]. *)
Theorem integer_literal (z : Z) (self : ConfigParser) :
  parse_value (int_token z) self
    = if (Z.abs z <? 10 ^ Z.of_nat Py.int_max_str_digits)%Z then
        Ok (VInt z, self)
      else Uncaught ValueError.
Proof.
  rewrite parse_int_token.
  destruct (Z.ltb_spec (Z.abs z) (10 ^ Z.of_nat Py.int_max_str_digits)) as [H|H].
  - apply int_token_short in H; [|unfold Py.int_max_str_digits; lia].
    by rewrite (proj2 (Nat.leb_le _ _) H).
  - apply int_token_long in H.
    by rewrite (proj2 (Nat.leb_gt _ _) H).
Qed.

(** ** Declarations *)

Lemma matches_lit s : forall w rest cs,
  ReSpec.matches (Re.lit s) w rest cs -> cs = [] /\ w = s.
Proof.
  induction s as [|c s IH]; intros w rest cs Hm; simpl in Hm.
  - by inversion Hm.
  - inversion Hm as [| | | | | | |? ? w1 w2 ? ? ? Hc Hs| |]; subst.
    inversion Hc; subst. by apply IH in Hs as [-> ->].
Qed.

(** X12: a declaration that succeeds binds one name, an identifier, to
    the value of its token, moves the cursor by one line, and changes
    nothing else in the parser. *)
Theorem declaration_effect (line : string) (self self1 : ConfigParser) :
  parse_constant_declaration line self = Ok self1 ->
  exists name token v,
    declaration_of line = Some (name, token) /\
    is_identifier name = true /\
    parse_value token self = Ok (v, self) /\
    constants self1 = <[name := v]> (constants self) /\
    current_line self1 = current_line self + 1 /\
    lines self1 = lines self.
Proof.
  intros (groups & v & Hg & Hv & ->)%parse_constant_declaration_inv.
  exists (nth 0 groups EmptyString), (Py.strip (nth 1 groups EmptyString)), v.
  unfold declaration_of. rewrite Hg. repeat split; try done.
  unfold Re.constant_pattern in Hg.
  apply ReFacts.rmatch_sound in Hg as (w & rest & -> & Hm).
  inversion Hm as [| | | | | | |? ? w1 w2 ? ? ? Hdef H1| |]; subst.
  inversion H1 as [| | | | | | |? ? w3 w4 ? ? cs4 Hsp H2| |]; subst.
  inversion H2 as [| | | | | | |? ? w5 w6 ? ? cs6 Hid _| |]; subst.
  apply (matches_lit "def") in Hdef as [-> _].
  apply ReFacts.matches_plus_inv in Hsp as [-> _].
  by apply identifier_group in Hid as [-> Hid].
Qed.

Lemma declaration_effect_witness :
  let self := {| constants := {["A" := VInt 1]}; current_line := 4;
                 lines := [] |} in
  exists self1,
    parse_constant_declaration "def B_2 = [[x]];" self = Ok self1 /\
    constants self1 = <["B_2" := VText "x"]> (constants self) /\
    current_line self1 = 5.
Proof.
  intros self.
  eexists. split; [by vm_compute|].
  match goal with |- constants ?s1 = _ /\ _ =>
    destruct (declaration_effect "def B_2 = [[x]];" self s1 ltac:(by vm_compute))
      as (name & token & v & Hd & _ & Hv & Hc & Hl & _)
  end.
  injection Hd as <- <-. vm_compute in Hv. injection Hv as <-.
  split; [exact Hc | exact Hl].
Defined.

(** X13: a declaration whose value is a reference binds its name to the
    value the referenced constant has at that moment. *)
Theorem declaration_copies_reference (line name other : string)
    (self self1 : ConfigParser) :
  declaration_of line = Some (name, "|" ++ other ++ "|") ->
  parse_constant_declaration line self = Ok self1 ->
  is_Some (constants self !! other) /\
  constants self1 !! name = constants self !! other.
Proof.
  intros Hd (name' & token & v & Hd' & Hv & ->)%declaration_inv.
  rewrite Hd in Hd'. injection Hd' as <- <-.
  change (parse_value ("|" ++ other ++ "|") self = Ok (v, self)) in Hv.
  rewrite parse_reference in Hv. simpl. rewrite lookup_insert_eq.
  destruct (constants self !! other) as [w|]; [|done].
  injection Hv as <-. by split.
Qed.

Lemma declaration_copies_reference_witness :
  let self := set_constant "A" (VInt 1) ConfigParser_init in
  let self1 := advance (set_constant "B" (VInt 1) self) in
  declaration_of "def B = |A|;" = Some ("B", "|A|") /\
  parse_constant_declaration "def B = |A|;" self = Ok self1 /\
  constants self1 !! "B" = constants self !! "A".
Proof.
  intros self self1.
  assert (parse_constant_declaration "def B = |A|;" self = Ok self1) as H
    by (by vm_compute).
  split; [reflexivity|]. split; [exact H|].
  exact (proj2 (declaration_copies_reference "def B = |A|;" "B" "A" self self1
                  eq_refl H)).
Defined.

(** X14: a line whose last character, a final line feed apart, is not a
    semicolon is not a declaration: [parse_constant_declaration] raises
    the invalid-constant-declaration error. *)
Theorem declaration_needs_semicolon (line : string) (self : ConfigParser) :
  ReSpec.final_char line <> Some ";"%char ->
  parse_constant_declaration line self
    = Raise (InvalidConstantDeclaration (current_line self + 1)).
Proof.
  intros Hf. unfold parse_constant_declaration,
    Methods.parse_constant_declaration.
  destruct (Re.rmatch Re.constant_pattern line) as [g|] eqn:E; [|done].
  by apply ReFacts.constant_pattern_final in E.
Qed.

Lemma declaration_needs_semicolon_witness :
  ReSpec.final_char "def A = 1" <> Some ";"%char /\
  parse_constant_declaration "def A = 1" ConfigParser_init
    = Raise (InvalidConstantDeclaration 1).
Proof.
  assert (ReSpec.final_char "def A = 1" <> Some ";"%char) as H
    by (by vm_compute).
  split; [exact H|].
  exact (declaration_needs_semicolon "def A = 1" ConfigParser_init H).
Defined.

Lemma span_unique p : forall a b x y r r',
  ReSpec.all p a = true -> ReSpec.all p b = true ->
  p x = false -> p y = false ->
  a ++ String x r = b ++ String y r' -> a = b /\ x = y.
Proof.
  induction a as [|c a IH]; intros [|d b] x y r r' Ha Hb Hx Hy; simpl.
  - by intros [= -> _].
  - intros [= -> _]. apply andb_true_iff in Hb as [Hd _]. congruence.
  - intros [= -> _]. apply andb_true_iff in Ha as [Hc _]. congruence.
  - intros [= -> H]. apply andb_true_iff in Ha as [_ Ha].
    apply andb_true_iff in Hb as [_ Hb].
    by destruct (IH b x y r r' Ha Hb Hx Hy H) as [-> ->].
Qed.

Lemma ident_start_not_space c : Re.ident_start c = true -> Py.isspace c = false.
Proof. by destruct c as [[|] [|] [|] [|] [|] [|] [|] [|]]. Qed.

(** X15: after [def] a declaration needs at least one white-space
    character and then a letter or an underscore: a line in which [def]
    is followed directly by another character, or in which the first
    character after the white space cannot start an identifier, raises
    the invalid-constant-declaration error. *)
Theorem declaration_needs_identifier (ws : string) (c : ascii) (rest : string)
    (self : ConfigParser) :
  ReSpec.all Py.isspace ws = true ->
  Py.isspace c = false ->
  ws = EmptyString \/ Re.ident_start c = false ->
  parse_constant_declaration ("def" ++ ws ++ String c rest) self
    = Raise (InvalidConstantDeclaration (current_line self + 1)).
Proof.
  intros Hws Hc Hbad. unfold parse_constant_declaration,
    Methods.parse_constant_declaration.
  destruct (Re.rmatch Re.constant_pattern _) as [g|] eqn:E; [exfalso|done].
  unfold Re.constant_pattern in E.
  apply ReFacts.rmatch_sound in E as (w & rest0 & Hw & Hm).
  inversion Hm as [| | | | | | |? ? w1 w2 ? ? ? Hdef H1| |]; subst.
  inversion H1 as [| | | | | | |? ? w3 w4 ? ? cs4 Hsp H2| |]; subst.
  inversion H2 as [| | | | | | |? ? w5 w6 ? ? cs6 Hid _| |]; subst.
  apply (matches_lit "def") in Hdef as [_ ->].
  apply ReFacts.matches_plus_inv in Hsp as [_ [Hne Hsp]%andb_true_iff].
  apply identifier_group in Hid as [_ Hid].
  destruct w5 as [|i w5]; [done|]. simpl in Hid.
  apply andb_true_iff in Hid as [Hi _].
  rewrite !app_assoc_s in Hw. simpl in Hw. injection Hw as Hw.
  apply span_unique with (p := Py.isspace) in Hw as [-> ->];
    [|done|done|done|by apply ident_start_not_space].
  destruct Hbad as [-> | Hbad]; [done | congruence].
Qed.

Lemma declaration_needs_identifier_witness :
  ReSpec.all Py.isspace " " = true /\
  parse_constant_declaration ("def" ++ " " ++ String "1" "abc = 5;")
      ConfigParser_init
    = Raise (InvalidConstantDeclaration 1).
Proof.
  split; [reflexivity|].
  apply (declaration_needs_identifier " " "1" "abc = 5;" ConfigParser_init);
    [reflexivity | reflexivity | by right].
Defined.

(** ** Entries *)

Lemma occurs_app_r p a b : occurs p b = true -> occurs p (a ++ b) = true.
Proof.
  intros H. induction a as [|c a IH]; simpl; [done|].
  rewrite IH. apply orb_true_r.
Qed.

Lemma arrow_pattern_occurs r s caps :
  Re.rmatch (Re.Cat Re.identifier
               (Re.Cat (Re.Star Py.isspace) (Re.Cat (Re.lit "->") r))) s
    = Some caps ->
  occurs "->" s = true.
Proof.
  intros (w & rest & -> & Hm)%ReFacts.rmatch_sound.
  inversion Hm as [| | | | | | |? ? w1 w2 ? ? ? _ H1| |]; subst.
  inversion H1 as [| | | | | | |? ? w3 w4 ? ? ? _ H2| |]; subst.
  inversion H2 as [| | | | | | |? ? w5 w6 ? ? ? Harrow _| |]; subst.
  apply (matches_lit "->") in Harrow as [_ ->].
  rewrite !app_assoc_s. do 2 apply occurs_app_r. done.
Qed.

(** X16: a line without the arrow [->] is not an entry: [parse_entry]
    raises the invalid-mapping-entry error with the number of the
    line. *)
Theorem entry_needs_arrow (config : dict) (line : string)
    (self : ConfigParser) :
  occurs "->" line = false ->
  parse_entry config line self = Raise (InvalidEntry (current_line self + 1)).
Proof.
  intros Ha. unfold parse_entry, Methods.parse_entry.
  destruct (Re.rmatch Re.entry_pattern line) as [g|] eqn:E.
  { apply arrow_pattern_occurs in E. congruence. }
  destruct (Re.rmatch Re.nested_pattern line) as [g|] eqn:E'; [|done].
  apply arrow_pattern_occurs in E'. congruence.
Qed.

Lemma entry_needs_arrow_witness :
  occurs "->" "key1 => 123." = false /\
  parse_entry [] "key1 => 123." ConfigParser_init = Raise (InvalidEntry 1).
Proof.
  split; [reflexivity|].
  apply (entry_needs_arrow [] "key1 => 123." ConfigParser_init). reflexivity.
Defined.

(** ** Opening lines *)

(** X17: whatever follows an opening brace on its line is ignored: in a
    block, a line that starts with an opening brace hands over to a
    nested [parse_block] on the next line, and in the driver it starts
    the top-level block on the next line. *)
Theorem opening_line_rest_ignored (fuel : nat) (config : dict)
    (self : ConfigParser) (raw : string) :
  lines self !! current_line self = Some raw ->
  Py.startswith "{" (Py.strip raw) = true ->
  block_loop config self = parse_block (advance self) /\
  parse_loop (S fuel) self
    = bind (parse_block (advance self)) (fun '(config1, self1) =>
        parse_trailing (trailing_fuel self1) config1 self1).
Proof.
  intros Hraw Hopen. destruct (open_line_dispatch _ Hopen) as [Hb Hd]. split.
  - rewrite block_loop_unfold. unfold Methods.parse_block_step.
    rewrite Hraw. cbv zeta. by rewrite Hb, Hd, Hopen.
  - cbn [parse_loop]. rewrite Hraw. cbv zeta. by rewrite Hb, Hd, Hopen.
Qed.

Lemma opening_line_rest_ignored_witness :
  let self := {| constants := ∅; current_line := 0;
                 lines := ["{ lost -> 1."; "kept -> 2."; "}"] |} in
  lines self !! current_line self = Some "{ lost -> 1." /\
  exists self', parse_loop 1 self = Ok ([("kept", VInt 2)], self').
Proof.
  intros self. split; [reflexivity|].
  destruct (opening_line_rest_ignored 0 [] self "{ lost -> 1." eq_refl eq_refl)
    as [_ ->].
  eexists. by vm_compute.
Defined.

Lemma parse_loop_no_block fuel : forall s config s',
  existsb (fun l => Py.startswith "{" (Py.strip l))
    (drop (current_line s) (lines s)) = false ->
  parse_loop fuel s = Ok (config, s') -> config = [].
Proof.
  induction fuel as [|fuel IH]; intros s config s' Hno; [done|].
  cbn [parse_loop].
  destruct (lines s !! current_line s) as [raw|] eqn:E;
    [|by intros [= <- _]].
  rewrite (drop_S _ _ _ E) in Hno. cbn [existsb] in Hno.
  apply orb_false_iff in Hno as [Hraw Hno]. cbv zeta. rewrite Hraw.
  repeat case_match; try done.
  - apply IH. simpl. by rewrite Nat.add_1_r.
  - intros (s1 & Hd & He)%bind_Ok. apply IH in He; [done|].
    apply parse_constant_declaration_inv in Hd as (g & x & _ & _ & ->).
    simpl. by rewrite Nat.add_1_r.
Qed.

(** X18: when no line of the text starts with an opening brace, [parse]
    never returns anything but the empty mapping: declarations alone
    make a valid text. *)
Theorem parse_without_block (text : string) (self : ConfigParser)
    (config : dict) (self' : ConfigParser) :
  has_opening_line text = false ->
  parse text self = Ok (config, self') ->
  config = [].
Proof.
  unfold has_opening_line, parse. intros Hno.
  apply parse_loop_no_block. simpl. by rewrite drop_0.
Qed.

Lemma parse_without_block_witness :
  let text := Py.join_lines ["def A = 1;"; "*> no block"; "def B = |A|;"] in
  has_opening_line text = false /\
  exists self', parse text ConfigParser_init = Ok ([], self').
Proof.
  intros text. split; [reflexivity|].
  destruct (parse text ConfigParser_init) as [[config self']| | |] eqn:E;
    [|by vm_compute in E..].
  exists self'. f_equal. f_equal.
  exact (parse_without_block text ConfigParser_init config self' eq_refl E).
Defined.

(** ** Lines written in the plain form *)

(** The greedy star takes every character of the class when what
    follows cannot be taken and the continuation accepts it. *)
Lemma star_greedy p w rest k res :
  ReSpec.all p w = true ->
  match rest with String c _ => p c = false | EmptyString => True end ->
  k rest = Some res ->
  Re.star p (w ++ rest) k = Some res.
Proof.
  intros Hw Hrest Hk. induction w as [|a w IH]; simpl in *.
  - destruct rest as [|c r]; [done|]. simpl. by rewrite Hrest.
  - apply andb_true_iff in Hw as [-> Hw]. by rewrite (IH Hw).
Qed.

(** The greedy star gives back the last character when the continuation
    needs it. *)
Lemma star_last p w c k res :
  ReSpec.all p w = true -> p c = true ->
  k EmptyString = None -> k (String c EmptyString) = Some res ->
  Re.star p (w ++ String c EmptyString) k = Some res.
Proof.
  intros Hw Hc Hnone Hk. induction w as [|a w IH]; simpl in *.
  - by rewrite Hc, Hnone.
  - apply andb_true_iff in Hw as [-> Hw]. by rewrite (IH Hw).
Qed.

Lemma no_nl_all_dot s : no_nl s -> ReSpec.all Re.dot s = true.
Proof.
  induction s as [|c s IH]; [done|]. intros [Hc Hs]%no_nl_cons.
  cbn [ReSpec.all]. rewrite (IH Hs), andb_true_r. unfold Re.dot.
  by rewrite Ascii.eqb_sym, Hc.
Qed.

(** The value group and the end of a pattern, on a value followed by
    its closing character. *)
Lemma value_group_run (close c : ascii) v' caps
    (k : string -> Re.captures -> option Re.captures) res :
  no_nl (String c v') -> Re.dot close = true ->
  k EmptyString (caps ++ [String c v'])%list = Some res ->
  Re.exec (Re.Cat (Re.Grp (Re.Plus Re.dot)) (Re.Cat (Re.Chr close) Re.Eos))
    (String c v' ++ String close EmptyString) caps k = Some res.
Proof.
  intros [Hc Hv]%no_nl_cons Hclose Hk. cbn [Re.exec Re.Plus].
  change (String c v' ++ String close EmptyString)
    with (String c (v' ++ String close EmptyString)). cbv beta iota.
  unfold Re.dot at 1. rewrite Ascii.eqb_sym, Hc. cbn [negb].
  apply star_last; [by apply no_nl_all_dot | done | done |].
  rewrite Ascii.eqb_refl.
  change (String c (v' ++ String close EmptyString))
    with (String c v' ++ String close EmptyString).
  by rewrite ReFacts.consumed_app.
Qed.

Lemma identifier_run key rest caps
    (k : string -> Re.captures -> option Re.captures) res :
  is_identifier key = true ->
  match rest with String c _ => Re.ident_char c = false | EmptyString => True end ->
  k rest (caps ++ [key])%list = Some res ->
  Re.exec Re.identifier (key ++ rest) caps k = Some res.
Proof.
  destruct key as [|k0 key]; [done|]. intros [Hk0 Hkey]%andb_true_iff Hrest Hk.
  unfold Re.identifier. cbn [Re.exec].
  change (String k0 key ++ rest) with (String k0 (key ++ rest)). cbv beta iota.
  rewrite Hk0. apply star_greedy; [done | done |].
  change (String k0 (key ++ rest)) with (String k0 key ++ rest).
  by rewrite ReFacts.consumed_app.
Qed.

Lemma exec_cat r1 r2 s caps k :
  Re.exec (Re.Cat r1 r2) s caps k
    = Re.exec r1 s caps (fun s1 caps1 => Re.exec r2 s1 caps1 k).
Proof. reflexivity. Qed.

Lemma exec_star p s caps k :
  Re.exec (Re.Star p) s caps k = Re.star p s (fun s' => k s' caps).
Proof. reflexivity. Qed.

Lemma exec_arrow s caps k :
  Re.exec (Re.lit "->") (String "-" (String ">" s)) caps k = k s caps.
Proof. reflexivity. Qed.

(** The groups of an entry line written as key, blank, arrow, blank,
    value and period. *)
Lemma entry_line_groups key c v' :
  is_identifier key = true -> no_nl (String c v') -> Py.isspace c = false ->
  Re.rmatch Re.entry_pattern (key ++ " -> " ++ String c v' ++ ".")
    = Some [key; String c v'].
Proof.
  intros Hkey Hv Hc. unfold Re.rmatch, Re.entry_pattern.
  rewrite exec_cat. apply identifier_run; [done | done |]. cbv beta.
  rewrite exec_cat, exec_star.
  change (" -> " ++ String c v' ++ ".")
    with (" " ++ String "-" (String ">" (" " ++ String c v' ++ "."))).
  apply star_greedy; [done | done |].
  rewrite exec_cat, exec_arrow, exec_cat, exec_star.
  apply star_greedy; [done | exact Hc |].
  by apply value_group_run.
Qed.

(** X19: an entry line written as an identifier, [ -> ], a value token
    that does not start with white space, and a period is read as an
    entry of that key with that token. *)
Theorem entry_line_read (config : dict) (key : string) (c : ascii)
    (v' : string) (self : ConfigParser) :
  is_identifier key = true ->
  no_nl (String c v') ->
  Py.isspace c = false ->
  parse_entry config (key ++ " -> " ++ String c v' ++ ".") self
    = bind (parse_value (Py.strip (String c v')) self) (fun '(x, self1) =>
        Ok (dict_set key x config, self1)).
Proof.
  intros Hkey Hv Hc. unfold parse_entry, Methods.parse_entry.
  by rewrite entry_line_groups.
Qed.

Lemma entry_line_read_witness :
  is_identifier "port" = true /\
  parse_entry [] ("port" ++ " -> " ++ String "8" "080" ++ ".") ConfigParser_init
    = Ok ([("port", VInt 8080)], ConfigParser_init).
Proof.
  split; [reflexivity|].
  rewrite (entry_line_read [] "port" "8" "080" ConfigParser_init);
    [by vm_compute | reflexivity | reflexivity | reflexivity].
Defined.

Lemma exec_lit p : forall s caps k,
  Re.exec (Re.lit p) (p ++ s) caps k = k s caps.
Proof.
  induction p as [|c p IH]; intros s caps k; [done|].
  cbn [Re.lit]. rewrite exec_cat. cbn [Re.exec].
  change (String c p ++ s) with (String c (p ++ s)). cbv beta iota.
  by rewrite Ascii.eqb_refl, IH.
Qed.

Lemma exec_cls p c s caps k :
  p c = true -> Re.exec (Re.Cls p) (String c s) caps k = k s caps.
Proof. intros H. cbn [Re.exec]. by rewrite H. Qed.

Lemma exec_chr c s caps k :
  Re.exec (Re.Chr c) (String c s) caps k = k s caps.
Proof. cbn [Re.exec]. by rewrite Ascii.eqb_refl. Qed.

Lemma declaration_line_groups name c v' :
  is_identifier name = true -> no_nl (String c v') -> Py.isspace c = false ->
  Re.rmatch Re.constant_pattern
      ("def" ++ " " ++ name ++ " = " ++ String c v' ++ ";")
    = Some [name; String c v'].
Proof.
  intros Hname Hv Hc. unfold Re.rmatch, Re.constant_pattern.
  rewrite exec_cat, exec_lit. cbv beta. unfold Re.Plus at 1.
  rewrite exec_cat, exec_cat.
  change (" " ++ name ++ " = " ++ String c v' ++ ";")
    with (String " " (EmptyString ++ (name ++ " = " ++ String c v' ++ ";"))).
  rewrite exec_cls by done. cbv beta. rewrite exec_star.
  assert (exists k0 name', name = String k0 name' /\ Re.ident_start k0 = true)
    as (k0 & name' & Hn & Hk0).
  { destruct name as [|k0 name']; [done|].
    apply andb_true_iff in Hname as [? _]. eauto. }
  apply star_greedy; [done | rewrite Hn; by apply ident_start_not_space |].
  rewrite exec_cat.
  apply identifier_run; [done | done |]. cbv beta.
  rewrite exec_cat, exec_star.
  change (" = " ++ String c v' ++ ";")
    with (" " ++ String "=" (" " ++ (String c v' ++ ";"))).
  apply star_greedy; [done | done |].
  rewrite exec_cat, exec_chr. cbv beta. rewrite exec_cat, exec_star.
  apply star_greedy; [done | exact Hc |].
  by apply value_group_run.
Qed.

(** X20: a line written as [def], a blank, an identifier, [ = ], a value
    token that does not start with white space, and a semicolon declares
    that name with that token: the value is parsed, bound, and the
    cursor moves on. *)
Theorem declaration_line_read (name : string) (c : ascii) (v' : string)
    (self : ConfigParser) :
  is_identifier name = true ->
  no_nl (String c v') ->
  Py.isspace c = false ->
  parse_constant_declaration
      ("def" ++ " " ++ name ++ " = " ++ String c v' ++ ";") self
    = bind (parse_value (Py.strip (String c v')) self) (fun '(x, self1) =>
        Ok (advance (set_constant name x self1))).
Proof.
  intros Hname Hv Hc.
  unfold parse_constant_declaration, Methods.parse_constant_declaration.
  by rewrite declaration_line_groups.
Qed.

Lemma declaration_line_read_witness :
  is_identifier "PORT" = true /\
  parse_constant_declaration
      ("def" ++ " " ++ "PORT" ++ " = " ++ String "8" "080" ++ ";")
      ConfigParser_init
    = Ok (advance (set_constant "PORT" (VInt 8080) ConfigParser_init)).
Proof.
  split; [reflexivity|].
  rewrite (declaration_line_read "PORT" "8" "080" ConfigParser_init);
    [by vm_compute | reflexivity | reflexivity | reflexivity].
Defined.

(** ** Reading back a flat block *)

Lemma split_lines_app_nl l t :
  no_nl l -> Py.split_lines (l ++ String Py.NL t) = l :: Py.split_lines t.
Proof.
  induction l as [|c l IH]; [done|]. intros [Hc Hl]%no_nl_cons.
  cbn [String.append Py.split_lines]. rewrite Ascii.eqb_sym, Hc.
  change (String.append l (String Py.NL t)) with (l ++ String Py.NL t).
  by rewrite (IH Hl).
Qed.

Lemma split_join ls :
  ls <> [] -> Forall no_nl ls -> Py.split_lines (Py.join_lines ls) = ls.
Proof.
  induction ls as [|l ls IH]; [done|]. intros _ Hall.
  inversion Hall as [|? ? Hl Hls]; subst.
  destruct ls as [|l' ls]; [by apply split_lines_single|].
  change (Py.join_lines (l :: l' :: ls))
    with (l ++ String Py.NL (Py.join_lines (l' :: ls))).
  rewrite split_lines_app_nl by done. by rewrite IH.
Qed.

Lemma rstrip_snoc w b :
  Py.isspace b = false ->
  Py.rstrip (w ++ String b EmptyString) = w ++ String b EmptyString.
Proof.
  intros Hb. induction w as [|a w IH]; simpl; [by rewrite Hb|].
  rewrite IH. by destruct w.
Qed.

(** A string that starts and ends with characters that are not white
    space is its own [strip]. *)
Lemma strip_id a w b :
  Py.isspace a = false -> Py.isspace b = false ->
  Py.strip (String a (w ++ String b EmptyString))
    = String a (w ++ String b EmptyString).
Proof.
  intros Ha Hb. unfold Py.strip. cbn [Py.lstrip]. rewrite Ha.
  by apply (rstrip_snoc (String a w)).
Qed.

Lemma strip_single a : Py.isspace a = false ->
  Py.strip (String a EmptyString) = String a EmptyString.
Proof.
  intros Ha. unfold Py.strip. cbn [Py.lstrip]. rewrite Ha.
  cbn [Py.rstrip]. by rewrite Ha.
Qed.

Lemma snoc_all p c s :
  ReSpec.all p (String c s) = true ->
  s = EmptyString \/
  exists w b, s = w ++ String b EmptyString /\ p b = true.
Proof.
  revert c; induction s as [|d s IH]; intros c; [by left|].
  intros [_ Hs]%andb_true_iff. right.
  destruct (IH d Hs) as [-> | (w & b & -> & Hb)].
  - exists EmptyString, d. split; [done|]. by apply andb_true_iff in Hs as [? _].
  - by exists (String d w), b.
Qed.

Lemma digit_not_space c : Py.isdigit c = true -> Py.isspace c = false.
Proof. by destruct c as [[|] [|] [|] [|] [|] [|] [|] [|]]. Qed.

Lemma all_digits_no_nl s : ReSpec.all Py.isdigit s = true -> no_nl s.
Proof.
  induction s as [|c s IH]; [done|]. intros [Hc Hs]%andb_true_iff.
  apply no_nl_cons. split; [by apply (digit_not _ c) | by apply IH].
Qed.

Lemma digits_strip c s :
  ReSpec.all Py.isdigit (String c s) = true ->
  Py.isspace c = false ->
  Py.strip (String c s) = String c s.
Proof.
  intros Hall Hc. destruct (snoc_all _ _ _ Hall) as [-> | (w & b & -> & Hb)].
  - by apply strip_single.
  - apply strip_id; [done | by apply digit_not_space].
Qed.

(** What the parser makes of the token of a scalar. *)
Lemma scalar_token_read x :
  readable x ->
  exists c v',
    scalar_token x = String c v' /\ Py.isspace c = false /\
    no_nl (String c v') /\
    forall self,
      parse_value (Py.strip (String c v')) self = Ok (scalar_value x, self).
Proof.
  destruct x as [z|s]; intros Hx.
  - destruct (int_token_cases z) as (c & v & _ & Hc & Hdig & _ & Hz).
    apply andb_true_iff in Hdig as [_ Hall].
    pose proof (digit_not_space _ Hc) as Hsp.
    assert (forall self, parse_value (int_token z) self = Ok (VInt z, self))
      as Hint.
    { intros self. rewrite parse_int_token.
      apply int_token_short in Hx; [|unfold Py.int_max_str_digits; lia].
      by rewrite (proj2 (Nat.leb_le _ _) Hx). }
    simpl. rewrite Hz in *.
    destruct (z <? 0)%Z.
    + exists "-"%char, (String c v). repeat split; try done.
      * apply no_nl_cons. split; [done | by apply all_digits_no_nl].
      * intros self. rewrite <- Hint. f_equal.
        destruct (snoc_all _ _ _ Hall) as [-> | (w & b & -> & Hb)].
        -- by apply (strip_id "-" EmptyString c).
        -- apply (strip_id "-" (String c w) b); [done | by apply digit_not_space].
    + exists c, v. repeat split; try done; [by apply all_digits_no_nl|].
      intros self. by rewrite digits_strip.
  - exists "["%char, ("[" ++ s ++ "]]"). repeat split; try done.
    + change (no_nl ("[[" ++ s ++ "]]")). by repeat (apply no_nl_app; split).
    + intros self.
      assert (String "[" ("[" ++ s ++ "]]")
                = String "[" (String "[" (s ++ "]") ++ "]")) as E
        by (simpl; by rewrite app_assoc_s).
      rewrite E, strip_id, <- E by done.
      apply parse_text_token.
Qed.

Lemma ident_char_not_nl c : Re.ident_char c = true -> Ascii.eqb Py.NL c = false.
Proof. by destruct c as [[|] [|] [|] [|] [|] [|] [|] [|]]. Qed.

Lemma identifier_no_nl key : is_identifier key = true -> no_nl key.
Proof.
  destruct key as [|k0 key]; [done|]. intros [Hk0 Hkey]%andb_true_iff.
  apply no_nl_cons. split.
  - apply ident_char_not_nl. unfold Re.ident_char, Re.ident_start in *.
    apply orb_true_iff in Hk0 as [Hk0 | ->]; [|apply orb_true_r].
    apply orb_true_iff in Hk0 as [-> | ->]; [done|]. by rewrite orb_true_r.
  - induction key as [|c key IH]; [done|].
    apply andb_true_iff in Hkey as [Hc Hkey].
    apply no_nl_cons. split; [by apply ident_char_not_nl | by apply IH].
Qed.

(** What the block loop makes of a line the writer wrote. *)
Lemma entry_line_facts kx :
  writable kx ->
  no_nl (entry_line kx) /\
  Py.strip (entry_line kx) = entry_line kx /\
  blank_or_comment (entry_line kx) = false /\
  Py.startswith "{" (entry_line kx) = false /\
  Py.startswith "}" (entry_line kx) = false /\
  forall config self,
    parse_entry config (entry_line kx) self
      = Ok (dict_set (fst kx) (scalar_value (snd kx)) config, self).
Proof.
  destruct kx as [key x]. intros (Hkey & Hdef & Hx). simpl in Hkey, Hx.
  destruct (scalar_token_read x Hx) as (c & v' & Htok & Hc & Hv & Hread).
  unfold entry_line. cbn [fst snd]. rewrite Htok.
  pose proof (identifier_no_nl _ Hkey) as Hnl.
  destruct key as [|k0 key]; [done|].
  pose proof Hkey as [Hk0 _]%andb_true_iff.
  split; [|split; [|split; [|split; [|split]]]].
  - by repeat (apply no_nl_app; split).
  - assert (String k0 key ++ " -> " ++ String c v' ++ "."
              = String k0 ((key ++ " -> " ++ String c v') ++ ".")) as E
      by (simpl; by rewrite !app_assoc_s).
    rewrite E. apply strip_id; [by apply ident_start_not_space | done].
  - by eapply entry_line_dispatch.
  - by eapply entry_line_dispatch.
  - by eapply entry_line_dispatch.
  - intros config self. unfold parse_entry, Methods.parse_entry.
    rewrite entry_line_groups by done. cbn [nth].
    fold parse_value. by rewrite Hread.
Qed.

Lemma flat_entries kxs : forall config s rest,
  Forall writable kxs ->
  drop (current_line s) (lines s) = (map entry_line kxs ++ "}" :: rest)%list ->
  block_loop config s
    = Ok (read_back kxs config,
          {| constants := constants s;
             current_line := current_line s + length kxs + 1;
             lines := lines s |}).
Proof.
  induction kxs as [|kx kxs IH]; intros config s rest Hw Hd.
  - assert (lines s !! current_line s = Some "}") as Hl.
    { rewrite <- (Nat.add_0_r (current_line s)), <- lookup_drop, Hd. done. }
    rewrite block_loop_unfold. unfold Methods.parse_block_step.
    rewrite Hl. simpl. unfold advance. do 3 f_equal. lia.
  - inversion Hw as [|? ? Hkx Hkxs]; subst.
    assert (lines s !! current_line s = Some (entry_line kx)) as Hl.
    { rewrite <- (Nat.add_0_r (current_line s)), <- lookup_drop, Hd. done. }
    rewrite (drop_S _ _ _ Hl) in Hd. injection Hd as Hd.
    destruct (entry_line_facts kx Hkx) as (_ & Hs & Hb & Ho & Hc & He).
    destruct Hkx as (_ & Hdef & _).
    rewrite block_loop_unfold. unfold Methods.parse_block_step.
    rewrite Hl. cbv zeta. rewrite Hs, Hb, Hdef, Ho, Hc.
    fold parse_entry. rewrite He. cbn [bind].
    rewrite (IH _ (advance s) rest Hkxs).
    + simpl. unfold read_back. simpl. do 3 f_equal. lia.
    + simpl. by rewrite Nat.add_1_r.
Qed.

Lemma flat_block_lines kxs :
  Forall writable kxs ->
  Py.split_lines (Py.join_lines (flat_block kxs)) = flat_block kxs.
Proof.
  intros Hw. apply split_join; [done|]. unfold flat_block.
  constructor; [done|]. apply Forall_app. split; [|by repeat constructor].
  apply Forall_fmap. eapply Forall_impl; [exact Hw|].
  intros kx Hkx. by apply entry_line_facts.
Qed.

Lemma parse_loop_open fuel self raw :
  lines self !! current_line self = Some raw ->
  Py.startswith "{" (Py.strip raw) = true ->
  parse_loop (S fuel) self
    = bind (parse_block (advance self)) (fun '(config1, self1) =>
        parse_trailing (trailing_fuel self1) config1 self1).
Proof.
  intros Hraw Hopen. destruct (open_line_dispatch _ Hopen) as [Hb Hd].
  cbn [parse_loop]. rewrite Hraw. cbv zeta. by rewrite Hb, Hd, Hopen.
Qed.

Lemma parse_trailing_past_end fuel config s :
  length (lines s) <= current_line s ->
  parse_trailing (S fuel) config s = Ok (config, s).
Proof.
  intros H. cbn [parse_trailing]. by rewrite (proj2 (lookup_ge_None _ _) H).
Qed.

(** X21: the parser reads back a flat block: the text with an opening
    line, one line [key -> token.] for each entry (an integer below the
    4300-th power of ten in absolute value, or a text without line
    feeds, under a key that is an identifier and does not make the line
    start with [def]) and a closing line parses to the mapping of those
    entries, a repeated key keeping its first place and its last
    value. *)
Theorem flat_block_read_back (kxs : list (string * scalar)) :
  Forall writable kxs ->
  parse_text (Py.join_lines (flat_block kxs)) = Ok (read_back kxs []).
Proof.
  intros Hw. unfold parse_text, parse. rewrite flat_block_lines by done.
  set (s0 := {| constants := constants ConfigParser_init; current_line := 0;
                lines := flat_block kxs |}).
  unfold trailing_fuel.
  rewrite (parse_loop_open _ s0 "{") by done.
  unfold parse_block.
  rewrite (flat_entries kxs [] (advance s0) [] Hw) by done.
  cbn [bind]. unfold trailing_fuel.
  rewrite parse_trailing_past_end; [done|].
  simpl. rewrite List.length_app, List.length_map. simpl. lia.
Qed.

Lemma flat_block_read_back_witness :
  let kxs := [("port", SInt 8080); ("name", SText "my app");
              ("port", SInt (-1))] in
  Forall writable kxs /\
  parse_text (Py.join_lines (flat_block kxs))
    = Ok [("port", VInt (-1)); ("name", VText "my app")].
Proof.
  intros kxs.
  assert (Forall writable kxs) as H by (repeat constructor).
  split; [exact H|]. exact (flat_block_read_back kxs H).
Defined.
